(** * Real-Time Audio Session Manager: the live speaking session of
      [services/geminiService.ts], embedded and checked against its
      specification.

    The embedding follows the TypeScript source function by function:
    - [Codec]: [decode], [decodeAudioData], [createBlob], together with the
      platform primitives they call ([atob], [btoa], the [Int16Array] view
      of a byte buffer, the numeric conversion on a store into an
      [Int16Array], [AudioContext.createBuffer]);
    - [Session]: the closure state of [startLiveSpeakingSession], its
      [onopen] / [onmessage] / [onerror] / [onclose] handlers, the handle's
      [close] and the [catch] block of the set-up;
    - [SpeakingInterface]: the component that starts the session, holds
      its handle and supplies the callbacks;
    - [Evaluation]: [getEvaluation], the submit handlers of [App] and the
      [handleSubmit] of the evaluation form.

    Numbers.  A JavaScript number is modelled by [number]: a rational
    ([Fin q]), [NaN] or an infinity.  Every float is a rational, and the
    codec only multiplies and divides by 32768 (a power of two) and
    truncates, which is exact on floats in the range the codec works in,
    so the rational model agrees with the machine on those inputs.  Clock
    readings and durations are rationals ([Q], seconds). *)

From Stdlib Require Import ZArith NArith QArith Qround Qminmax Qabs.
From Stdlib Require Import List String Ascii Bool Lia Arith.
From Stdlib Require Import Zify ZifyNat ZifyN.
Import ListNotations.

Set Implicit Arguments.

(** ** Exceptions and results *)

(** The exceptions the modelled code can raise.  [HostError] stands for an
    error object handed over by the platform or the remote SDK
    ([getUserMedia] rejection, connection failure); its [message] field may
    be absent. *)
Inductive Exn : Type :=
| RangeError
| TypeError
| ReferenceError (name : string)
| InvalidCharacterError
| NotSupportedError
| HostError (message : option string).

Inductive Result (A : Type) : Type :=
| Ok (a : A)
| Throw (e : Exn).

Arguments Ok {A} a.
Arguments Throw {A} e.

Definition rbind {A B} (r : Result A) (k : A -> Result B) : Result B :=
  match r with
  | Ok a => k a
  | Throw e => Throw e
  end.

(** JavaScript numbers. *)
Inductive number : Type :=
| Fin (q : Q)
| NaN
| Inf (negative : bool).

Module Codec.

(** *** Base64 ([btoa] / [atob]) *)

(** A binary string (code units 0..255) is a [string]; its code units
    are read with [N_of_ascii]. *)

Definition alphabet : string :=
  "ABCDEFGHIJKLMNOPQRSTUVWXYZabcdefghijklmnopqrstuvwxyz0123456789+/".

Definition pad : ascii := "="%char.

Definition sextet_char (n : N) : ascii :=
  match String.get (N.to_nat n) alphabet with
  | Some c => c
  | None => pad
  end.

Fixpoint index_of (c : ascii) (s : string) : option N :=
  match s with
  | EmptyString => None
  | String d r =>
      if Ascii.eqb c d then Some 0%N
      else option_map N.succ (index_of c r)
  end.

Definition char_sextet (c : ascii) : option N := index_of c alphabet.

(** Three bytes become four sextets; a final group of one or two bytes
    becomes two or three sextets. *)
Fixpoint pack (l : list N) : list N :=
  match l with
  | [] => []
  | [a] => [a / 4; (a mod 4) * 16]%N
  | [a; b] => [a / 4; (a mod 4) * 16 + b / 16; (b mod 16) * 4]%N
  | a :: b :: c :: r =>
      (a / 4 :: (a mod 4) * 16 + b / 16 :: (b mod 16) * 4 + c / 64
         :: c mod 64 :: pack r)%N
  end.

Definition padding (n : nat) : list ascii :=
  repeat pad ((3 - n mod 3) mod 3).

Definition codes (s : string) : list N :=
  map N_of_ascii (list_ascii_of_string s).

(** [btoa]: every code unit of a [string] is below 256, so the
    [InvalidCharacterError] of the platform function cannot arise. *)
Definition btoa (s : string) : string :=
  string_of_list_ascii
    (map sextet_char (pack (codes s)) ++ padding (String.length s)).

(** [atob] is the forgiving-base64 decode of the HTML standard. *)
Definition is_ascii_whitespace (c : ascii) : bool :=
  let n := N_of_ascii c in
  ((n =? 9) || (n =? 10) || (n =? 12) || (n =? 13) || (n =? 32))%N.

Definition strip_whitespace (l : list ascii) : list ascii :=
  filter (fun c => negb (is_ascii_whitespace c)) l.

Definition strip_padding (l : list ascii) : list ascii :=
  if (List.length l mod 4 =? 0)%nat then
    match rev l with
    | c1 :: c2 :: r =>
        if Ascii.eqb c1 pad then
          if Ascii.eqb c2 pad then rev r else rev (c2 :: r)
        else l
    | [c1] => if Ascii.eqb c1 pad then [] else l
    | [] => l
    end
  else l.

Fixpoint sextets (l : list ascii) : option (list N) :=
  match l with
  | [] => Some []
  | c :: r =>
      match char_sextet c, sextets r with
      | Some n, Some ns => Some (n :: ns)
      | _, _ => None
      end
  end.

Fixpoint unpack (l : list N) : list N :=
  match l with
  | s0 :: s1 :: s2 :: s3 :: r =>
      (s0 * 4 + s1 / 16 :: (s1 mod 16) * 16 + s2 / 4
         :: (s2 mod 4) * 64 + s3 :: unpack r)%N
  | [s0; s1; s2] => [s0 * 4 + s1 / 16; (s1 mod 16) * 16 + s2 / 4]%N
  | [s0; s1] => [s0 * 4 + s1 / 16]%N
  | _ => []
  end.

Definition atob (s : string) : Result string :=
  let l := strip_padding (strip_whitespace (list_ascii_of_string s)) in
  if (List.length l mod 4 =? 1)%nat then Throw InvalidCharacterError
  else
    match sextets l with
    | None => Throw InvalidCharacterError
    | Some sx => Ok (string_of_list_ascii (map ascii_of_N (unpack sx)))
    end.

(** *** [decode]
<<
function decode(base64: string): Uint8Array {
  const binaryString = atob(base64);
  const len = binaryString.length;
  const bytes = new Uint8Array(len);
  for (let i = 0; i < len; i++) bytes[i] = binaryString.charCodeAt(i);
  return bytes;
}
>>
    A [Uint8Array] is the list of its elements, each in 0..255. *)
Definition decode (base64 : string) : Result (list Z) :=
  rbind (atob base64) (fun binaryString =>
    Ok (map (fun c => Z.of_N (N_of_ascii c))
            (list_ascii_of_string binaryString))).

(** *** Typed-array views *)

(** Two's-complement reading of a 16-bit pattern. *)
Definition wrap16 (z : Z) : Z :=
  let m := (z mod 65536)%Z in
  if (32768 <=? m)%Z then (m - 65536)%Z else m.

(** [new Int16Array(buffer)]: a [RangeError] when the byte length is
    odd, otherwise the little-endian 16-bit signed elements. *)
Fixpoint int16_elements (bytes : list Z) : Result (list Z) :=
  match bytes with
  | [] => Ok []
  | [_] => Throw RangeError
  | lo :: hi :: r =>
      rbind (int16_elements r) (fun t => Ok (wrap16 (lo + 256 * hi) :: t))
  end.

(** [new Uint8Array(int16.buffer)]: the bytes of the elements, low byte
    first. *)
Definition int16_bytes (l : list Z) : list Z :=
  flat_map (fun v => [(v mod 65536) mod 256; (v mod 65536) / 256]%Z) l.

(** Rounding toward zero. *)
Definition truncate (q : Q) : Z := Z.quot (Qnum q) (Zpos (Qden q)).

(** The conversion applied when a number is stored into an
    [Int16Array] element. *)
Definition ToInt16 (x : number) : Z :=
  match x with
  | Fin q => wrap16 (truncate q)
  | NaN => 0%Z
  | Inf _ => 0%Z
  end.

(** [x * 32768]. *)
Definition times32768 (x : number) : number :=
  match x with
  | Fin q => Fin (q * 32768)
  | NaN => NaN
  | Inf s => Inf s
  end.

(** Reading [dataInt16[i] / 32768.0]: an index outside the array reads
    [undefined], and [undefined / 32768.0] is [NaN]. *)
Definition int16_get_scaled (dataInt16 : list Z) (i : nat) : number :=
  match nth_error dataInt16 i with
  | Some v => Fin (inject_Z v / 32768)
  | None => NaN
  end.

(** A store into a typed array: ignored when the index is outside. *)
Fixpoint typed_set {A} (l : list A) (i : nat) (v : A) : list A :=
  match l, i with
  | [], _ => []
  | _ :: r, O => v :: r
  | x :: r, S j => x :: typed_set r j v
  end.

(** *** [AudioBuffer] and [createBuffer] *)

Record AudioBuffer : Type := mkBuffer {
  numberOfChannels : nat;
  length : nat;
  sampleRate : Q;
  channels : list (list number)
}.

(** [buffer.duration] in seconds. *)
Definition duration (b : AudioBuffer) : Q :=
  inject_Z (Z.of_nat (length b)) / sampleRate b.

(** The nominal ranges of [createBuffer].  The Web Audio standard obliges
    every implementation to accept up to 32 channels and the sample rates
    from 8000 to 96000 Hz, and lets it accept more; what is outside the
    range of the implementation is refused.  These are the limits of
    Chromium: 32 channels, 3000 to 768000 Hz. *)
Definition max_channels : nat := 32.
Definition min_rate : Q := 3000.
Definition max_rate : Q := 768000.

Definition supported (numChannels : nat) (rate : Q) : bool :=
  (numChannels <=? max_channels)%nat
  && Qle_bool min_rate rate && Qle_bool rate max_rate.

(** [ctx.createBuffer(numChannels, frameCount, sampleRate)]: the frame
    count is converted to an integer by truncation; zero channels, zero
    frames, more channels than supported or a sample rate outside the
    supported range (zero and the negative rates among them) raise
    [NotSupportedError]; the channels start out silent. *)
Definition createBuffer (numChannels : nat) (frames : nat) (rate : Q)
  : Result AudioBuffer :=
  if ((numChannels =? 0) || (frames =? 0))%nat then Throw NotSupportedError
  else if supported numChannels rate
  then Ok (mkBuffer numChannels frames rate
             (repeat (repeat (Fin 0) frames) numChannels))
  else Throw NotSupportedError.

(** *** [decodeAudioData]
<<
const dataInt16 = new Int16Array(data.buffer);
const frameCount = dataInt16.length / numChannels;
const buffer = ctx.createBuffer(numChannels, frameCount, sampleRate);
for (let channel = 0; channel < numChannels; channel++) {
  const channelData = buffer.getChannelData(channel);
  for (let i = 0; i < frameCount; i++)
    channelData[i] = dataInt16[i * numChannels + channel] / 32768.0;
}
return buffer;
>>
    [frameCount] is a real quotient: [createBuffer] receives its integer
    part, while the inner loop runs for every integer [i] below the real
    quotient, one more time than there are frames when the division is
    not exact. *)

(** Number of integers [i >= 0] with [i < n / c], for [c > 0]. *)
Definition loop_bound (n c : nat) : nat := (n + c - 1) / c.

Definition fill_channel (dataInt16 : list Z) (numChannels channel : nat)
    (iterations : nat) (channelData : list number) : list number :=
  fold_left
    (fun acc i =>
       typed_set acc i (int16_get_scaled dataInt16 (i * numChannels + channel)))
    (seq 0 iterations) channelData.

Definition decodeAudioData (data : list Z) (rate : Q) (numChannels : nat)
  : Result AudioBuffer :=
  rbind (int16_elements data) (fun dataInt16 =>
    let n := List.length dataInt16 in
    rbind (createBuffer numChannels (n / numChannels) rate) (fun buffer =>
      Ok (mkBuffer (numberOfChannels buffer) (length buffer)
            (sampleRate buffer)
            (map (fun p : nat * list number =>
                    fill_channel dataInt16 numChannels (fst p)
                      (loop_bound n numChannels) (snd p))
                 (combine (seq 0 numChannels) (channels buffer)))))).

(** *** [createBlob]
<<
const l = data.length;
const int16 = new Int16Array(l);
for (let i = 0; i < l; i++) int16[i] = data[i] * 32768;
return { data: btoa(String.fromCharCode(...new Uint8Array(int16.buffer))),
         mimeType: 'audio/pcm;rate=16000' };
>>  *)
Record Blob : Type := mkBlob {
  data : string;
  mimeType : string
}.

Definition fromCharCodes (bytes : list Z) : string :=
  string_of_list_ascii (map (fun b => ascii_of_N (Z.to_N b)) bytes).

Definition createBlob (samples : list number) : Blob :=
  let int16 := map (fun x => ToInt16 (times32768 x)) samples in
  mkBlob (btoa (fromCharCodes (int16_bytes int16))) "audio/pcm;rate=16000".

(** The round trip the specification calls
    [decodeBlob(encodeChunk(samples))]: mono, at the given rate. *)
Definition roundtrip (samples : list number) (rate : Q) : Result AudioBuffer :=
  rbind (decode (data (createBlob samples))) (fun bytes =>
    decodeAudioData bytes rate 1).

End Codec.

(** ** The live session *)

Module Session.

(** *** Messages of the remote endpoint ([LiveServerMessage]) *)

Record Transcription : Type := mkTranscription { text : option string }.
Record InlineData : Type := mkInlineData { data : option string }.
Record Part : Type := mkPart { inlineData : option InlineData }.
Record Content : Type := mkContent { parts : option (list Part) }.

Record ServerContent : Type := mkServerContent {
  inputTranscription : option Transcription;
  modelTurn : option Content;
  outputTranscription : option Transcription;
  turnComplete : bool;
  interrupted : bool
}.

Record LiveServerMessage : Type := mkMessage {
  serverContent : option ServerContent
}.

(** String conversion of an optional text in [+=]: an absent field reads
    [undefined]. *)
Definition js_string (o : option string) : string :=
  match o with
  | Some s => s
  | None => "undefined"
  end.

(** [x || fallback] on an optional string: absent and empty are falsy. *)
Definition or_else (o : option string) (fallback : string) : string :=
  match o with
  | Some EmptyString => fallback
  | Some s => s
  | None => fallback
  end.

Definition truthy (o : option string) : bool :=
  match o with
  | Some EmptyString => false
  | Some _ => true
  | None => false
  end.

(** [message.serverContent?.modelTurn?.parts[0]?.inlineData?.data]: the
    index into [parts] is not guarded, so a model turn without [parts]
    raises a [TypeError]. *)
Definition audioData (m : LiveServerMessage) : Result (option string) :=
  match serverContent m with
  | None => Ok None
  | Some sc =>
      match modelTurn sc with
      | None => Ok None
      | Some c =>
          match parts c with
          | None => Throw TypeError
          | Some [] => Ok None
          | Some (p :: _) =>
              match inlineData p with
              | None => Ok None
              | Some d => Ok (data d)
              end
          end
      end
  end.

Definition field {A} (f : ServerContent -> option A) (m : LiveServerMessage)
  : option A :=
  match serverContent m with
  | None => None
  | Some sc => f sc
  end.

Definition flag (f : ServerContent -> bool) (m : LiveServerMessage) : bool :=
  match serverContent m with
  | None => false
  | Some sc => f sc
  end.

(** *** Observable actions

    The callbacks of [LiveSessionCallbacks] keep their names; the other
    constructors are the calls the session makes on the platform
    objects it holds.  Console output is not modelled. *)
Inductive Event : Type :=
| onTranscriptionUpdate (inputTranscript outputTranscript : string)
| onTurnComplete (fullInputTranscript : string)
| onAIStartSpeaking
| onAIStopSpeaking
| onError (message : string)
| onClose
| sourceStart (source : nat) (when : Q) (buffer : Codec.AudioBuffer)
| sourceStop (source : nat)
| sessionClose
| trackStop
| contextClose (input : bool)
| contextCloseRejected (input : bool)
| processorDisconnect
| mediaSourceDisconnect
| sendRealtimeInput (media : Codec.Blob)
| unhandledRejection (e : Exn).

(** *** Closure state of [startLiveSpeakingSession] *)

Inductive Track : Type := TrackLive | TrackEnded.
Inductive Context : Type := Running | Closed.
Inductive Promise : Type := Pending | Fulfilled | Rejected.

(** The [let] and [const] bindings of the function, in declaration
    order, followed by what the platform keeps for the session: the
    state of [sessionPromise], the [then] callbacks waiting on it, and
    the identity of the next [AudioBufferSourceNode].  A handle is
    [None] until it is assigned; the object it then refers to carries
    its own state.  [sources] lists the set in insertion order, which
    is the order a [Set] is iterated in. *)
#[projections(primitive)]
Record State : Type := mkState {
  nextStartTime : Q;
  inputAudioContext : option Context;
  outputAudioContext : option Context;
  scriptProcessor : option bool;
  mediaStreamSource : option bool;
  sources : list nat;
  stream : option Track;
  currentInputTranscription : string;
  currentOutputTranscription : string;
  sessionPromise : Promise;
  waiting : list Codec.Blob;
  nextSource : nat
}.

Definition initial : State :=
  mkState 0 None None None None [] None "" "" Pending [] 0.

Definition set_nextStartTime (v : Q) (s : State) : State :=
  mkState v (inputAudioContext s) (outputAudioContext s) (scriptProcessor s)
    (mediaStreamSource s) (sources s) (stream s)
    (currentInputTranscription s) (currentOutputTranscription s)
    (sessionPromise s) (waiting s) (nextSource s).

Definition set_inputAudioContext (v : option Context) (s : State) : State :=
  mkState (nextStartTime s) v (outputAudioContext s) (scriptProcessor s)
    (mediaStreamSource s) (sources s) (stream s)
    (currentInputTranscription s) (currentOutputTranscription s)
    (sessionPromise s) (waiting s) (nextSource s).

Definition set_outputAudioContext (v : option Context) (s : State) : State :=
  mkState (nextStartTime s) (inputAudioContext s) v (scriptProcessor s)
    (mediaStreamSource s) (sources s) (stream s)
    (currentInputTranscription s) (currentOutputTranscription s)
    (sessionPromise s) (waiting s) (nextSource s).

Definition set_scriptProcessor (v : option bool) (s : State) : State :=
  mkState (nextStartTime s) (inputAudioContext s) (outputAudioContext s) v
    (mediaStreamSource s) (sources s) (stream s)
    (currentInputTranscription s) (currentOutputTranscription s)
    (sessionPromise s) (waiting s) (nextSource s).

Definition set_mediaStreamSource (v : option bool) (s : State) : State :=
  mkState (nextStartTime s) (inputAudioContext s) (outputAudioContext s)
    (scriptProcessor s) v (sources s) (stream s)
    (currentInputTranscription s) (currentOutputTranscription s)
    (sessionPromise s) (waiting s) (nextSource s).

Definition set_sources (v : list nat) (s : State) : State :=
  mkState (nextStartTime s) (inputAudioContext s) (outputAudioContext s)
    (scriptProcessor s) (mediaStreamSource s) v (stream s)
    (currentInputTranscription s) (currentOutputTranscription s)
    (sessionPromise s) (waiting s) (nextSource s).

Definition set_stream (v : option Track) (s : State) : State :=
  mkState (nextStartTime s) (inputAudioContext s) (outputAudioContext s)
    (scriptProcessor s) (mediaStreamSource s) (sources s) v
    (currentInputTranscription s) (currentOutputTranscription s)
    (sessionPromise s) (waiting s) (nextSource s).

Definition set_currentInputTranscription (v : string) (s : State) : State :=
  mkState (nextStartTime s) (inputAudioContext s) (outputAudioContext s)
    (scriptProcessor s) (mediaStreamSource s) (sources s) (stream s)
    v (currentOutputTranscription s)
    (sessionPromise s) (waiting s) (nextSource s).

Definition set_currentOutputTranscription (v : string) (s : State) : State :=
  mkState (nextStartTime s) (inputAudioContext s) (outputAudioContext s)
    (scriptProcessor s) (mediaStreamSource s) (sources s) (stream s)
    (currentInputTranscription s) v
    (sessionPromise s) (waiting s) (nextSource s).

Definition set_sessionPromise (v : Promise) (s : State) : State :=
  mkState (nextStartTime s) (inputAudioContext s) (outputAudioContext s)
    (scriptProcessor s) (mediaStreamSource s) (sources s) (stream s)
    (currentInputTranscription s) (currentOutputTranscription s)
    v (waiting s) (nextSource s).

Definition set_waiting (v : list Codec.Blob) (s : State) : State :=
  mkState (nextStartTime s) (inputAudioContext s) (outputAudioContext s)
    (scriptProcessor s) (mediaStreamSource s) (sources s) (stream s)
    (currentInputTranscription s) (currentOutputTranscription s)
    (sessionPromise s) v (nextSource s).

Definition set_nextSource (v : nat) (s : State) : State :=
  mkState (nextStartTime s) (inputAudioContext s) (outputAudioContext s)
    (scriptProcessor s) (mediaStreamSource s) (sources s) (stream s)
    (currentInputTranscription s) (currentOutputTranscription s)
    (sessionPromise s) (waiting s) v.

(** *** Computations: state, a trace of actions, and exceptions

    A raised exception keeps the state changes and the actions made
    before it, as in JavaScript. *)
Definition M (A : Type) : Type := State -> Result A * State * list Event.

Definition ret {A} (a : A) : M A := fun s => (Ok a, s, []).

Definition bind {A B} (m : M A) (k : A -> M B) : M B :=
  fun s =>
    match m s with
    | (Ok a, s1, t1) =>
        match k a s1 with
        | (r, s2, t2) => (r, s2, t1 ++ t2)
        end
    | (Throw e, s1, t1) => (Throw e, s1, t1)
    end.

Definition emit (e : Event) : M unit := fun s => (Ok tt, s, [e]).
Definition get : M State := fun s => (Ok s, s, []).
Definition modify (f : State -> State) : M unit := fun s => (Ok tt, f s, []).
Definition throw {A} (e : Exn) : M A := fun s => (Throw e, s, []).

Definition lift {A} (r : Result A) : M A :=
  match r with
  | Ok a => ret a
  | Throw e => throw e
  end.

Definition try_catch {A} (m : M A) (handler : Exn -> M A) : M A :=
  fun s =>
    match m s with
    | (Ok a, s1, t1) => (Ok a, s1, t1)
    | (Throw e, s1, t1) =>
        match handler e s1 with
        | (r, s2, t2) => (r, s2, t1 ++ t2)
        end
    end.

Definition when (b : bool) (m : M unit) : M unit :=
  if b then m else ret tt.

Definition when_some {A} (o : option A) (k : A -> M unit) : M unit :=
  match o with
  | Some a => k a
  | None => ret tt
  end.

Declare Scope session_scope.
Delimit Scope session_scope with session.
Notation "x <- m ;; k" := (bind m (fun x => k))
  (at level 61, m at next level, right associativity) : session_scope.
Notation "m ;; k" := (bind m (fun _ => k))
  (at level 61, right associativity) : session_scope.
Local Open Scope session_scope.

Definition state_of {A} (o : Result A * State * list Event) : State :=
  snd (fst o).
Definition trace_of {A} (o : Result A * State * list Event) : list Event :=
  snd o.
Definition result_of {A} (o : Result A * State * list Event) : Result A :=
  fst (fst o).

(** *** [onopen]

    Creates the capture nodes and starts streaming the microphone. *)
Definition onopen : M unit :=
  modify (set_mediaStreamSource (Some true)) ;;
  modify (set_scriptProcessor (Some true)).

(** *** [scriptProcessor.onaudioprocess]

    [sessionPromise.then(session => session.sendRealtimeInput(...))]:
    the send happens once the promise is fulfilled, at once when it
    already is, and never when it was rejected. *)
Definition onaudioprocess (inputData : list number) : M unit :=
  let pcmBlob := Codec.createBlob inputData in
  s <- get ;;
  match sessionPromise s with
  | Fulfilled => emit (sendRealtimeInput pcmBlob)
  | Pending => modify (set_waiting (waiting s ++ [pcmBlob]))
  | Rejected => ret tt
  end.

(** *** [onmessage] *)

(** [for (const source of sources.values()) { source.stop();
    sources.delete(source); }].  Deleting the element just visited does
    not disturb the iteration of a [Set], so the loop visits the
    elements present when it starts, in insertion order. *)
Fixpoint stop_each (visit : list nat) : M unit :=
  match visit with
  | [] => ret tt
  | source :: rest =>
      emit (sourceStop source) ;;
      modify (fun s => set_sources (remove Nat.eq_dec source (sources s)) s) ;;
      stop_each rest
  end.

Definition stop_all_sources : M unit :=
  s <- get ;; stop_each (sources s).

(** The body of [if (base64EncodedAudioString) { ... }]; [now] is the
    reading of [outputAudioContext.currentTime].  The [await] on
    [decodeAudioData] resumes before any other event is delivered. *)
Definition play_fragment (now : Q) (base64EncodedAudioString : string)
  : M unit :=
  emit onAIStartSpeaking ;;
  modify (fun s => set_nextStartTime (Qmax (nextStartTime s) now) s) ;;
  bytes <- lift (Codec.decode base64EncodedAudioString) ;;
  audioBuffer <- lift (Codec.decodeAudioData bytes 24000 1) ;;
  s <- get ;;
  let source := nextSource s in
  modify (set_nextSource (S source)) ;;
  emit (sourceStart source (nextStartTime s) audioBuffer) ;;
  modify (set_nextStartTime (nextStartTime s + Codec.duration audioBuffer)) ;;
  modify (fun s => set_sources (sources s ++ [source]) s).

(** The [turnComplete] branch reads [fullInputTranscript] first, a name
    bound neither in the handler nor in the module: evaluating it
    raises a [ReferenceError] before anything else in the branch
    happens.  Every other name the branch uses
    ([conversationHistoryRef], [outputTranscriptRef], [onSetLoading],
    ...) is unbound in the same way. *)
Definition turn_complete_branch : M unit :=
  throw (ReferenceError "fullInputTranscript").

Definition onmessage (now : Q) (message : LiveServerMessage) : M unit :=
  when_some (field inputTranscription message) (fun t =>
    modify (fun s =>
      set_currentInputTranscription
        (currentInputTranscription s ++ js_string (text t)) s) ;;
    s <- get ;;
    emit (onTranscriptionUpdate (currentInputTranscription s)
            (currentOutputTranscription s))) ;;
  base64EncodedAudioString <- lift (audioData message) ;;
  when (truthy base64EncodedAudioString)
    (play_fragment now (js_string base64EncodedAudioString)) ;;
  when_some (field outputTranscription message) (fun t =>
    modify (fun s =>
      set_currentOutputTranscription
        (currentOutputTranscription s ++ js_string (text t)) s) ;;
    s <- get ;;
    emit (onTranscriptionUpdate (currentInputTranscription s)
            (currentOutputTranscription s))) ;;
  when (flag turnComplete message) turn_complete_branch ;;
  when (flag interrupted message)
    (stop_all_sources ;;
     modify (set_nextStartTime 0) ;;
     emit onAIStopSpeaking).

(** The ['ended'] listener of a source. *)
Definition onended (source : nat) : M unit :=
  modify (fun s => set_sources (remove Nat.eq_dec source (sources s)) s) ;;
  s <- get ;;
  when (Nat.eqb (List.length (sources s)) 0) (emit onAIStopSpeaking).

(** *** [onerror] and [onclose] *)
Definition onerror (message : option string) : M unit :=
  emit (onError ("Live session error: " ++ or_else message "Unknown error")) ;;
  emit onClose.

Definition onclose : M unit := emit onClose.

(** *** [close], the one operation of the returned handle *)

(** [ctx.close()] on a context that is already closed returns a
    rejected promise; nothing awaits it. *)
Definition close_context (input : bool) (c : Context) : M unit :=
  match c with
  | Running => emit (contextClose input)
  | Closed => emit (contextClose input) ;; emit (contextCloseRejected input)
  end.

Definition close : M unit :=
  emit sessionClose ;;
  s <- get ;;
  when_some (stream s) (fun _ =>
    emit trackStop ;; modify (set_stream (Some TrackEnded))) ;;
  when_some (inputAudioContext s) (fun c =>
    close_context true c ;; modify (set_inputAudioContext (Some Closed))) ;;
  when_some (outputAudioContext s) (fun c =>
    close_context false c ;; modify (set_outputAudioContext (Some Closed))) ;;
  when_some (scriptProcessor s) (fun _ =>
    emit processorDisconnect ;; modify (set_scriptProcessor (Some false))) ;;
  when_some (mediaStreamSource s) (fun _ =>
    emit mediaSourceDisconnect ;;
    modify (set_mediaStreamSource (Some false))) ;;
  stop_all_sources.

(** *** The event loop

    What the platform and the remote endpoint can deliver to a session
    once the connection has been requested.  Each event runs its handler
    to completion; an exception escaping a handler is an unhandled
    rejection and does not stop the loop.  [close] is not an event: it is
    called by whoever holds the handle. *)
Inductive Input : Type :=
| Open
| Message (now : Q) (message : LiveServerMessage)
| Error (message : option string)
| Close
| AudioProcess (inputData : list number)
| Ended (source : nat).

Definition handler (i : Input) : M unit :=
  match i with
  | Open => onopen
  | Message now m => onmessage now m
  | Error msg => onerror msg
  | Close => onclose
  | AudioProcess inputData =>
      s <- get ;;
      match scriptProcessor s with
      | Some true => onaudioprocess inputData
      | _ => ret tt
      end
  | Ended source => onended source
  end.

Definition deliver (i : Input) : M unit :=
  try_catch (handler i) (fun e => emit (unhandledRejection e)).

Fixpoint run (l : list Input) : M unit :=
  match l with
  | [] => ret tt
  | i :: r => deliver i ;; run r
  end.

(** *** [startLiveSpeakingSession] *)

(** What the platform and the remote endpoint answer during set-up. *)
Record Host : Type := mkHost {
  getUserMedia : Result unit;
  newInputContext : Result unit;
  newOutputContext : Result unit;
  connect : Result unit
}.

(** [early] are the events delivered while the connection is being
    established (normally the [Open] event). *)
Definition setup (h : Host) (early : list Input) : M unit :=
  lift (getUserMedia h) ;;
  modify (set_stream (Some TrackLive)) ;;
  lift (newInputContext h) ;;
  modify (set_inputAudioContext (Some Running)) ;;
  lift (newOutputContext h) ;;
  modify (set_outputAudioContext (Some Running)) ;;
  run early ;;
  try_catch (lift (connect h))
    (fun e => modify (set_sessionPromise Rejected) ;; throw e) ;;
  modify (set_sessionPromise Fulfilled) ;;
  s <- get ;;
  modify (set_waiting []) ;;
  fold_right (fun b k => emit (sendRealtimeInput b) ;; k) (ret tt) (waiting s).

Definition error_message (e : Exn) : option string :=
  match e with
  | HostError m => m
  | _ => None
  end.

Definition startLiveSpeakingSession (h : Host) (early : list Input) : M unit :=
  try_catch (setup h early) (fun error =>
    emit (onError ("Failed to start speaking session: " ++
                   or_else (error_message error)
                     "Microphone access denied or unknown error.")) ;;
    emit onClose ;;
    throw error).

(** A session whose set-up succeeded, followed by the events of its
    life. *)
Definition session (h : Host) (early later : list Input) : M unit :=
  startLiveSpeakingSession h early ;; run later.

Definition friendly : Host := mkHost (Ok tt) (Ok tt) (Ok tt) (Ok tt).

(** The state of a session right after a successful start. *)
Definition established : State :=
  state_of (startLiveSpeakingSession friendly [Open] initial).

(** Messages carrying a single item. *)
Definition no_content : ServerContent :=
  mkServerContent None None None false false.

Definition input_fragment (t : string) : LiveServerMessage :=
  mkMessage (Some (mkServerContent (Some (mkTranscription (Some t))) None None
                     false false)).

Definition output_fragment (t : string) : LiveServerMessage :=
  mkMessage (Some (mkServerContent None None (Some (mkTranscription (Some t)))
                     false false)).

Definition audio_fragment (base64 : string) : LiveServerMessage :=
  mkMessage (Some (mkServerContent None
    (Some (mkContent (Some [mkPart (Some (mkInlineData (Some base64)))])))
    None false false)).

Definition turn_complete : LiveServerMessage :=
  mkMessage (Some (mkServerContent None None None true false)).

Definition interruption : LiveServerMessage :=
  mkMessage (Some (mkServerContent None None None false true)).


(** *** Reading traces *)

Definition is_onTurnComplete (e : Event) : bool :=
  match e with onTurnComplete _ => true | _ => false end.
Definition is_onAIStartSpeaking (e : Event) : bool :=
  match e with onAIStartSpeaking => true | _ => false end.
Definition is_onAIStopSpeaking (e : Event) : bool :=
  match e with onAIStopSpeaking => true | _ => false end.
Definition is_onError (e : Event) : bool :=
  match e with onError _ => true | _ => false end.
Definition is_sourceStop (e : Event) : bool :=
  match e with sourceStop _ => true | _ => false end.
Definition is_sessionClose (e : Event) : bool :=
  match e with sessionClose => true | _ => false end.
Definition is_trackStop (e : Event) : bool :=
  match e with trackStop => true | _ => false end.
Definition is_contextClose (e : Event) : bool :=
  match e with contextClose _ => true | _ => false end.

Definition is_contextCloseRejected (e : Event) : bool :=
  match e with contextCloseRejected _ => true | _ => false end.

(** The calls that release a resource of the session. *)
Definition is_release (e : Event) : bool :=
  match e with
  | sourceStop _ | sessionClose | trackStop | contextClose _
  | processorDisconnect | mediaSourceDisconnect => true
  | _ => false
  end.

Definition count (f : Event -> bool) (t : list Event) : nat :=
  List.length (filter f t).

(** Start time and duration of every buffer scheduled in a trace. *)
Fixpoint starts (t : list Event) : list (Q * Q) :=
  match t with
  | [] => []
  | sourceStart _ w b :: r => (w, Codec.duration b) :: starts r
  | _ :: r => starts r
  end.

(** The sources stopped in a trace, in order. *)
Fixpoint stopped (t : list Event) : list nat :=
  match t with
  | [] => []
  | sourceStop i :: r => i :: stopped r
  | _ :: r => stopped r
  end.

(** A payload the audio branch accepts and the buffer it decodes to. *)
Definition decoded (base64 : string) : Result Codec.AudioBuffer :=
  rbind (Codec.decode base64) (fun bytes =>
    Codec.decodeAudioData bytes 24000 1).

Definition playable (base64 : string) (buffer : Codec.AudioBuffer) : Prop :=
  base64 <> EmptyString /\ decoded base64 = Ok buffer.

(** A burst: audio fragments arriving one after the other, each with
    the reading of the output clock at its arrival. *)
Definition burst (l : list (Q * string)) : list Input :=
  map (fun p => Message (fst p) (audio_fragment (snd p))) l.

(** **** Statements of the specification, as predicates *)

(** "The scheduled start time of buffer k equals the computed end time
    of buffer k-1": read on the scheduled buffers of a trace. *)
Fixpoint back_to_back (previous_end : option Q) (l : list (Q * Q)) : Prop :=
  match l with
  | [] => True
  | (start, d) :: r =>
      match previous_end with
      | Some e => start == e
      | None => True
      end /\ back_to_back (Some (start + d)) r
  end.

(** What the code guarantees instead: with [now] the clock reading at
    the arrival of a buffer, its start is the larger of the previous
    end and [now]. *)
Fixpoint anchored (previous_end : Q) (l : list (Q * (Q * Q))) : Prop :=
  match l with
  | [] => True
  | (now, (start, d)) :: r =>
      start = Qmax previous_end now /\
      previous_end <= start /\
      (now <= previous_end -> start = previous_end) /\
      (previous_end < now -> start = now) /\
      anchored (start + d) r
  end.

(** "All retained handles are nulled out". *)
Definition handles_nulled (s : State) : Prop :=
  stream s = None /\ inputAudioContext s = None /\
  outputAudioContext s = None /\ scriptProcessor s = None /\
  mediaStreamSource s = None.

(** "A second close() is a no-op and release happens exactly once". *)
Definition second_close_is_noop (s : State) : Prop :=
  let first := close s in
  let second := close (state_of first) in
  result_of second = Ok tt /\
  handles_nulled (state_of first) /\
  trace_of second = [] /\
  count is_trackStop (trace_of first ++ trace_of second) = 1%nat.

(** "onAIStartSpeaking only on the first fragment of a burst". *)
Definition announced_once (t : list Event) : Prop :=
  count is_onAIStartSpeaking t = 1%nat.

(** "An interruption that arrives while the in-flight set is empty still
    invokes onAIStopSpeaking". *)
Definition stop_signalled (s : State) (now : Q) (m : LiveServerMessage)
  : Prop :=
  sources s = [] -> flag interrupted m = true ->
  (1 <= count is_onAIStopSpeaking (trace_of (onmessage now m s)))%nat.

(** A session that holds its three set-up resources. *)
Definition started (s : State) : Prop :=
  stream s <> None /\ inputAudioContext s <> None /\
  outputAudioContext s <> None.

(** The microphone is still captured, an audio context still running. *)
Definition holds_resources (s : State) : Prop :=
  stream s = Some TrackLive /\ inputAudioContext s = Some Running /\
  outputAudioContext s = Some Running.

End Session.

Import Session.
Local Open Scope session_scope.

(** ** The caller: the [SpeakingInterface] component

    The component holds the handle and supplies the callbacks.  Of its
    state the model keeps the refs, the recording flag and the
    transcripts it has sent for evaluation; what it displays is left
    out. *)

Module SpeakingInterface.

#[projections(primitive)]
Record Component : Type := mkComponent {
  isRecording : bool;
  liveSessionRef : bool;
  inputTranscriptRef : string;
  outputTranscriptRef : string;
  conversationHistoryRef : list string;
  evaluations : list string
}.

(** The component before [startSpeaking] has ever run. *)
Definition idle : Component := mkComponent false false "" "" [] [].

(** The six callbacks handed to [startLiveSpeakingSession].
    [onTurnComplete] is followed up to its [await]. *)
Definition callback (e : Event) (c : Component) : Component :=
  match e with
  | onTranscriptionUpdate input output =>
      mkComponent (isRecording c) (liveSessionRef c) input output
        (conversationHistoryRef c) (evaluations c)
  | onTurnComplete fullInputTranscript =>
      mkComponent (isRecording c) (liveSessionRef c) "" ""
        (conversationHistoryRef c
           ++ ("You: " ++ fullInputTranscript)%string
           :: (if truthy (Some (outputTranscriptRef c))
               then [("Coach: " ++ outputTranscriptRef c)%string]
               else []))
        (evaluations c ++ [fullInputTranscript])
  | onError _ =>
      mkComponent false (liveSessionRef c) (inputTranscriptRef c)
        (outputTranscriptRef c) (conversationHistoryRef c) (evaluations c)
  | onClose =>
      mkComponent false false "" "" (conversationHistoryRef c) (evaluations c)
  | _ => c
  end.

Definition observe (t : list Event) (c : Component) : Component :=
  fold_left (fun c e => callback e c) t c.

(** The component together with the session it started. *)
Definition App : Type := (Component * State)%type.

(** [startSpeaking]: on success the handle is kept in [liveSessionRef]. *)
Definition startSpeaking (h : Host) (early : list Input) (c : Component)
  : App * list Event :=
  let c0 := mkComponent (isRecording c) (liveSessionRef c)
              (inputTranscriptRef c) (outputTranscriptRef c) []
              (evaluations c) in
  let out := startLiveSpeakingSession h early initial in
  let c1 := observe (trace_of out) c0 in
  match result_of out with
  | Ok _ =>
      (mkComponent true true (inputTranscriptRef c1) (outputTranscriptRef c1)
         (conversationHistoryRef c1) (evaluations c1),
       state_of out, trace_of out)
  | Throw _ =>
      (mkComponent false (liveSessionRef c1) (inputTranscriptRef c1)
         (outputTranscriptRef c1) (conversationHistoryRef c1) (evaluations c1),
       state_of out, trace_of out)
  end.

(** What can happen next: an event for the session, the Stop button, or
    the component being unmounted. *)
Inductive Action : Type :=
| Platform (i : Input)
| StopSpeaking
| Unmount.

Definition act (a : Action) (w : App) : App * list Event :=
  let (c, s) := w in
  match a with
  | Platform i =>
      let out := deliver i s in
      (observe (trace_of out) c, state_of out, trace_of out)
  | StopSpeaking =>
      let c' := mkComponent false false (inputTranscriptRef c)
                  (outputTranscriptRef c) (conversationHistoryRef c)
                  (evaluations c) in
      if liveSessionRef c then
        let out := close s in (c', state_of out, trace_of out)
      else (c', s, [])
  | Unmount =>
      if liveSessionRef c then
        let out := close s in (c, state_of out, trace_of out)
      else (c, s, [])
  end.

Fixpoint acts (l : list Action) (w : App) : App * list Event :=
  match l with
  | [] => (w, [])
  | a :: r =>
      let (w1, t1) := act a w in
      let (w2, t2) := acts r w1 in
      (w2, t1 ++ t2)
  end.

(** Actions of the user only. *)
Definition by_user (a : Action) : Prop :=
  match a with
  | Platform _ => False
  | _ => True
  end.

(** The application right after a successful [startSpeaking]. *)
Definition recording : App :=
  fst (startSpeaking friendly [Open] idle).

End SpeakingInterface.

Import SpeakingInterface.

(** ** Statements about the codec, as predicates *)

(** The 16-bit signed little-endian sample number [k] of a byte
    sequence. *)
Definition sample16 (bytes : list Z) (k : nat) : Z :=
  Codec.wrap16 (nth (2 * k) bytes 0%Z + 256 * nth (2 * k + 1) bytes 0%Z).

Definition sample_at (b : Codec.AudioBuffer) (channel i : nat) : option number :=
  match nth_error (Codec.channels b) channel with
  | Some c => nth_error c i
  | None => None
  end.

(** "decodeBlob truncates the trailing partial sample rather than raising
    an error, and produces totalSamples / channelCount frames". *)
Definition truncates_partial_sample (bytes : list Z) (numChannels : nat) : Prop :=
  exists b,
    Codec.decodeAudioData bytes 24000 numChannels = Ok b /\
    Codec.length b = (List.length bytes / 2 / numChannels)%nat.

(** "The k-th decoded value differs from the k-th original value by at
    most 1/32768". *)
Definition within_one_step (original decoded : number) : Prop :=
  match original, decoded with
  | Fin a, Fin b => Qabs (b - a) <= 1 # 32768
  | _, _ => False
  end.

Definition round_trip_claim (samples : list Q) : Prop :=
  exists b out,
    Codec.roundtrip (map Fin samples) 24000 = Ok b /\
    Codec.channels b = [out] /\
    Forall2 within_one_step (map Fin samples) out.

(** ** Auxiliary definitions *)

(** [never f m]: no action recognised by [f] occurs in a trace of [m]. *)
Definition never (f : Event -> bool) {A} (m : M A) : Prop :=
  forall s, filter f (trace_of (m s)) = [].

(** A host on which the remote connection cannot be established. *)
Definition refused : Host :=
  mkHost (Ok tt) (Ok tt) (Ok tt) (Throw (HostError (Some "network down"%string))).

(** Removing from [acc] every element of [l], one after the other. *)
Definition remove_each (l acc : list nat) : list nat :=
  fold_left (fun a i => remove Nat.eq_dec i a) l acc.

(** The session state after a buffer has been scheduled at clock reading
    [now]. *)
Definition enqueued (now : Q) (buffer : Codec.AudioBuffer) (s : State) : State :=
  set_sources (sources s ++ [nextSource s])
    (set_nextStartTime
       (Qmax (nextStartTime s) now + Codec.duration buffer)
       (set_nextSource (S (nextSource s)) s)).

(** The end of the last buffer of a schedule, [previous] when there is
    none. *)
Definition final_end (previous : Q) (l : list (Q * Q)) : Q :=
  fold_left (fun _ p => fst p + snd p) l previous.

(** Three frames of silence: what the payload ["AAAAAAAA"] decodes to. *)
Definition silence3 : Codec.AudioBuffer :=
  Codec.mkBuffer 1 3 24000
    [[Fin (0 # 32768); Fin (0 # 32768); Fin (0 # 32768)]].

(** [s'] holds the transcripts of [s], possibly with more text appended. *)
Definition extends (s s' : State) : Prop :=
  (exists x, currentInputTranscription s'
             = (currentInputTranscription s ++ x)%string) /\
  (exists y, currentOutputTranscription s'
             = (currentOutputTranscription s ++ y)%string).

(** [m] only ever appends to the two transcript accumulators. *)
Definition appends_only {A} (m : M A) : Prop :=
  forall s, extends s (state_of (m s)).

(** ** One-shot evaluation: [getEvaluation] and the handlers of [App]

    Text is a [string] of code units below 256.  The request sent to the
    model (prompt, schema, sampling parameters) is determined by the
    evaluation type and the input text, so the platform's answer is taken
    as a function of those two. *)

Module Evaluation.

Inductive EvaluationType : Type := writing | speaking.

(** [String.prototype.trim]: the white space and line terminators that
    fit in a code unit below 256. *)
Definition is_js_whitespace (c : ascii) : bool :=
  let n := N_of_ascii c in
  ((n =? 9) || (n =? 10) || (n =? 11) || (n =? 12) || (n =? 13)
   || (n =? 32) || (n =? 160))%N.

Fixpoint drop_whitespace (l : list ascii) : list ascii :=
  match l with
  | [] => []
  | c :: r => if is_js_whitespace c then drop_whitespace r else l
  end.

Definition trim (s : string) : string :=
  string_of_list_ascii
    (rev (drop_whitespace (rev (drop_whitespace (list_ascii_of_string s))))).

(** [haystack.includes(needle)]. *)
Fixpoint includes (needle haystack : string) : bool :=
  String.prefix needle haystack ||
  match haystack with
  | EmptyString => false
  | String _ r => includes needle r
  end.

Definition bad_request : string :=
  "Gemini API received a bad request. Please check your prompt or API key.".

Definition parse_failure : string :=
  "Failed to parse AI response. The response format was unexpected.".

Section WithPlatform.

(** [J] are the parsed JSON values other than [null].  [JSON.parse]
    gives [None] for a [SyntaxError], [Some None] for the value [null]
    (which the text [null] parses to) and [Some (Some j)] for any other
    value. *)
Variable J : Type.
Variable parse : string -> option (option J).

(** [ai.models.generateContent]: the [text] of the response, which may be
    absent, or a rejection. *)
Variable generateContent : EvaluationType -> string -> Result (option string).

(** The message the engine gives the [TypeError] raised by reading
    [trim] of [undefined]. *)
Variable undefined_read : string.

Definition message_of (error : Exn) : option string :=
  match error with
  | HostError m => m
  | TypeError => Some undefined_read
  | _ => None
  end.

(** The outer [catch] of [getEvaluation]. *)
Definition rethrow (error : Exn) : Exn :=
  if truthy (message_of error)
     && includes "400 BAD_REQUEST" (js_string (message_of error))
  then HostError (Some bad_request)
  else HostError (Some ("Failed to get evaluation from AI: "
                        ++ or_else (message_of error) "Unknown error")%string).

(** The body of the outer [try]: the request, then the inner [try] around
    [JSON.parse]. *)
Definition request_and_parse (type : EvaluationType) (inputText : string)
  : Result (option J) :=
  rbind (generateContent type inputText) (fun text =>
    match text with
    | None => Throw TypeError
    | Some t =>
        let responseText := trim t in
        match parse responseText with
        | Some parsedFeedback => Ok parsedFeedback
        | None => Throw (HostError (Some parse_failure))
        end
    end).

Definition getEvaluation (type : EvaluationType) (inputText : string)
  : Result (option J) :=
  match request_and_parse type inputText with
  | Ok parsedFeedback => Ok parsedFeedback
  | Throw error => Throw (rethrow error)
  end.

(** *** The state of [App] and its handlers

    The two feedback states hold a value or [null], and [null] is what
    they hold before any submission and after [handleClearFeedback]; the
    page puts a feedback block under the form only while the state of
    the active mode holds a value that counts as true, which [null]
    does not. *)

Record AppState : Type := mkAppState {
  activeMode : EvaluationType;
  writingFeedback : option J;
  speakingFeedback : option J;
  isLoading : bool;
  error : option string
}.

(** [handleWritingSubmit], followed to its end.  The value
    [getEvaluation] resolves to is stored as it is: when it is [null],
    the state is the one of no feedback. *)
Definition handleWritingSubmit (inputText : string) (st : AppState)
  : AppState :=
  match getEvaluation writing inputText with
  | Ok feedback => mkAppState (activeMode st) feedback None false None
  | Throw err =>
      mkAppState (activeMode st) None None false
        (Some (or_else (message_of err)
                 "An unexpected error occurred. Please try again."))
  end.

(** [handleSubmitTranscriptForEvaluation]: the value it resolves to and
    the state it leaves. *)
Definition handleSubmitTranscriptForEvaluation (transcript : string)
    (st : AppState) : option J * AppState :=
  match getEvaluation speaking transcript with
  | Ok feedback =>
      (feedback,
       mkAppState (activeMode st) (writingFeedback st) feedback false None)
  | Throw err =>
      (None,
       mkAppState (activeMode st) (writingFeedback st) None false
         (Some (or_else (message_of err)
                  "Failed to get detailed feedback for your turn.")))
  end.

Definition handleModeChange (mode : EvaluationType) (st : AppState)
  : AppState :=
  mkAppState mode None None (isLoading st) None.

(** [handleSubmit] of [EvaluationForm], whose [onSubmit] is
    [handleWritingSubmit]. *)
Definition handleSubmit (inputText : string) (st : AppState) : AppState :=
  if truthy (Some (trim inputText)) then handleWritingSubmit inputText st
  else st.

End WithPlatform.

(** A text made of white space only. *)
Definition blank (s : string) : Prop :=
  Forall (fun c => is_js_whitespace c = true) (list_ascii_of_string s).

(** The two shapes of message [getEvaluation] fails with. *)
Definition reported (e : Exn) : Prop :=
  exists m, e = HostError (Some m) /\
    (m = bad_request \/
     exists detail, detail <> EmptyString /\
       m = ("Failed to get evaluation from AI: " ++ detail)%string).

(** A toy platform for worked examples: the only texts that parse are
    ["{}"] and ["null"], and the model answers the writing request with
    a padded ["{}"] and the speaking request with prose. *)
Definition toy_parse (s : string) : option (option unit) :=
  if String.eqb s "{}" then Some (Some tt)
  else if String.eqb s "null" then Some None
  else None.

Definition toy_model (type : EvaluationType) (_ : string)
  : Result (option string) :=
  match type with
  | writing => Ok (Some "  {}  "%string)
  | speaking => Ok (Some "Sure! Here is my feedback."%string)
  end.

End Evaluation.

Import Evaluation.

(** ** Definitions for the further properties *)

(** The in-flight set is a set, and the identity of the next source is
    larger than every member. *)
Definition well_formed (s : State) : Prop :=
  NoDup (sources s) /\ Forall (fun i => (i < nextSource s)%nat) (sources s).

(** The calls that send captured chunks, in order. *)
Definition sends (chunks : list (list number)) : list Event :=
  map (fun c => sendRealtimeInput (Codec.createBlob c)) chunks.

Definition is_sendRealtimeInput (e : Event) : bool :=
  match e with sendRealtimeInput _ => true | _ => false end.

(** A finite number in [[-1, 1)]. *)
Definition normalised (x : number) : Prop :=
  exists q, x = Fin q /\ -1 <= q /\ q < 1.

(** A transcript fragment: [true] for the student's side, [false] for the
    coach's. *)
Definition fragment (p : bool * string) : LiveServerMessage :=
  if fst p then input_fragment (snd p) else output_fragment (snd p).

(** The transcript updates the caller should see for a sequence of
    fragments, from running transcripts [i] and [o]. *)
Fixpoint running_updates (i o : string) (l : list (bool * string))
  : list Event :=
  match l with
  | [] => []
  | (true, f) :: r =>
      onTranscriptionUpdate (i ++ f) o :: running_updates (i ++ f) o r
  | (false, f) :: r =>
      onTranscriptionUpdate i (o ++ f) :: running_updates i (o ++ f) r
  end.

(** The text of one side of a sequence of fragments, in order. *)
Definition side (b : bool) (l : list (bool * string)) : string :=
  fold_right append ""%string
    (map snd (filter (fun p => Bool.eqb (fst p) b) l)).

(** Everything a session holds has been let go. *)
Definition released (s : State) : Prop :=
  stream s <> Some TrackLive /\
  inputAudioContext s <> Some Running /\
  outputAudioContext s <> Some Running /\
  scriptProcessor s <> Some true /\
  mediaStreamSource s <> Some true /\
  sources s = [].

(** * Theorems *)

(** ** Laws of the computation type *)

Lemma bind_ok {A B} (m : M A) (k : A -> M B) s a s1 t1 :
  m s = (Ok a, s1, t1) ->
  bind m k s = (result_of (k a s1), state_of (k a s1), t1 ++ trace_of (k a s1)).
Proof.
  intros E. unfold bind. rewrite E.
  destruct (k a s1) as [[r s2] t2]. reflexivity.
Qed.

Lemma bind_throw {A B} (m : M A) (k : A -> M B) s e s1 t1 :
  m s = (Throw e, s1, t1) -> bind m k s = (Throw e, s1, t1).
Proof. intros E. unfold bind. rewrite E. reflexivity. Qed.

Lemma outcome_eta {A} (o : Result A * State * list Event) :
  o = (result_of o, state_of o, trace_of o).
Proof. destruct o as [[r s] t]. reflexivity. Qed.

Lemma deliver_never_throws i s : result_of (deliver i s) = Ok tt.
Proof.
  unfold deliver, try_catch.
  destruct (handler i s) as [[[[]|e] s1] t1]; reflexivity.
Qed.

Lemma run_cons i l s :
  run (i :: l) s =
  (result_of (run l (state_of (deliver i s))),
   state_of (run l (state_of (deliver i s))),
   trace_of (deliver i s) ++ trace_of (run l (state_of (deliver i s)))).
Proof.
  cbn [run]. pose proof (deliver_never_throws i s) as H.
  unfold bind. destruct (deliver i s) as [[r s1] t1].
  cbn in H. subst r. cbn.
  destruct (run l s1) as [[r s2] t2]. reflexivity.
Qed.

Lemma run_never_throws l : forall s, result_of (run l s) = Ok tt.
Proof.
  induction l as [|i l IH]; intros s; [reflexivity|].
  rewrite run_cons. cbn. apply IH.
Qed.

(** ** Actions a computation never performs *)

Section Never.
Variable f : Event -> bool.

Lemma never_ret {A} (a : A) : never f (ret a).
Proof. intros s. reflexivity. Qed.

Lemma never_get : never f get.
Proof. intros s. reflexivity. Qed.

Lemma never_modify g : never f (modify g).
Proof. intros s. reflexivity. Qed.

Lemma never_throw {A} e : never f (@throw A e).
Proof. intros s. reflexivity. Qed.

Lemma never_lift {A} (r : Result A) : never f (lift r).
Proof. destruct r; intros s; reflexivity. Qed.

Lemma never_emit e : f e = false -> never f (emit e).
Proof. intros H s. cbn. rewrite H. reflexivity. Qed.

Lemma never_bind {A B} (m : M A) (k : A -> M B) :
  never f m -> (forall a, never f (k a)) -> never f (bind m k).
Proof.
  intros Hm Hk s. unfold bind. specialize (Hm s).
  destruct (m s) as [[[a|e] s1] t1]; cbn in *; [|exact Hm].
  specialize (Hk a s1). destruct (k a s1) as [[r s2] t2]; cbn in *.
  rewrite filter_app, Hm, Hk. reflexivity.
Qed.

Lemma never_try_catch {A} (m : M A) h :
  never f m -> (forall e, never f (h e)) -> never f (try_catch m h).
Proof.
  intros Hm Hh s. unfold try_catch. specialize (Hm s).
  destruct (m s) as [[[a|e] s1] t1]; cbn in *; [exact Hm|].
  specialize (Hh e s1). destruct (h e s1) as [[r s2] t2]; cbn in *.
  rewrite filter_app, Hm, Hh. reflexivity.
Qed.

Lemma never_when b m : never f m -> never f (when b m).
Proof. destruct b; cbn; [trivial|]. intros _. apply never_ret. Qed.

Lemma never_when_some {A} (o : option A) k :
  (forall a, never f (k a)) -> never f (when_some o k).
Proof. destruct o; cbn; [auto|]. intros _. apply never_ret. Qed.

Lemma never_fold_sends (l : list Codec.Blob) :
  (forall b, f (sendRealtimeInput b) = false) ->
  never f (fold_right (fun b k => emit (sendRealtimeInput b) ;; k) (ret tt) l).
Proof.
  intros H. induction l as [|b l IH]; cbn [fold_right].
  - apply never_ret.
  - apply never_bind; [apply never_emit, H | intros _; exact IH].
Qed.
End Never.

Create HintDb never discriminated.
#[local] Hint Resolve never_ret never_get never_modify never_throw never_lift
  never_bind never_try_catch never_when never_when_some never_fold_sends
  : never.
#[local] Hint Extern 1 (never _ (emit _)) =>
  (apply never_emit; reflexivity) : never.

Ltac never_step :=
  repeat first
    [ progress auto with never
    | apply never_bind; [|intro]
    | apply never_when
    | apply never_when_some; intro
    | apply never_try_catch; [|intro] ].

Lemma never_stop_each f l :
  (forall i, f (sourceStop i) = false) -> never f (stop_each l).
Proof.
  intros H. induction l as [|i l IH]; cbn [stop_each]; [apply never_ret|].
  apply never_bind; [apply never_emit, H | intros _].
  apply never_bind; [apply never_modify | intros _; exact IH].
Qed.

(** The service never calls [callbacks.onTurnComplete], whatever it
    receives. *)
Lemma handler_never_onTurnComplete i : never is_onTurnComplete (handler i).
Proof.
  assert (Hs : forall l, never is_onTurnComplete (stop_each l))
    by (intro l; apply never_stop_each; reflexivity).
  destruct i; cbn [handler].
  - unfold onopen. never_step.
  - unfold onmessage, play_fragment, turn_complete_branch, stop_all_sources.
    never_step.
  - unfold onerror. never_step.
  - unfold onclose. never_step.
  - apply never_bind; [auto with never|]. intros s.
    destruct (scriptProcessor s) as [[|]|]; auto with never.
    unfold onaudioprocess. apply never_bind; [auto with never|]. intros s'.
    destruct (sessionPromise s'); auto with never.
  - unfold onended. never_step.
Qed.

Lemma close_never_onTurnComplete : never is_onTurnComplete close.
Proof.
  assert (Hs : forall l, never is_onTurnComplete (stop_each l))
    by (intro l; apply never_stop_each; reflexivity).
  unfold close, close_context, stop_all_sources. never_step.
  all: match goal with c : Context |- _ => destruct c end; never_step.
Qed.

Lemma run_never_onTurnComplete l : never is_onTurnComplete (run l).
Proof.
  induction l as [|i l IH]; cbn [run]; [apply never_ret|].
  apply never_bind; [|intros _; exact IH].
  unfold deliver. apply never_try_catch.
  - apply handler_never_onTurnComplete.
  - intros e. auto with never.
Qed.

Lemma session_never_onTurnComplete h early later :
  never is_onTurnComplete (session h early later).
Proof.
  pose proof run_never_onTurnComplete as R.
  unfold session, startLiveSpeakingSession, setup. never_step.
Qed.

(** A turn-complete message makes the handler fail before it does
    anything: the state, and with it both transcript accumulators, is
    unchanged. *)
Lemma turn_complete_rejects s now :
  onmessage now turn_complete s =
  (Throw (ReferenceError "fullInputTranscript"), s, []).
Proof. reflexivity. Qed.

(** No handler ever resets a transcript accumulator: each only appends. *)
Lemma append_empty (s : string) : (s ++ "")%string = s.
Proof. induction s as [|c s IH]; cbn; congruence. Qed.

Lemma append_associative (a b c : string) :
  ((a ++ b) ++ c)%string = (a ++ (b ++ c))%string.
Proof. induction a as [|x a IH]; cbn; congruence. Qed.

Lemma extends_refl s : extends s s.
Proof. split; exists ""%string; symmetry; apply append_empty. Qed.

Lemma extends_trans s1 s2 s3 : extends s1 s2 -> extends s2 s3 -> extends s1 s3.
Proof.
  intros [[x Hx] [y Hy]] [[x' Hx'] [y' Hy']]. split.
  - exists (x ++ x')%string. rewrite Hx', Hx. apply append_associative.
  - exists (y ++ y')%string. rewrite Hy', Hy. apply append_associative.
Qed.

Section AppendsOnly.
Lemma appends_ret {A} (a : A) : appends_only (ret a).
Proof. intros s. apply extends_refl. Qed.

Lemma appends_get : appends_only get.
Proof. intros s. apply extends_refl. Qed.

Lemma appends_emit e : appends_only (emit e).
Proof. intros s. apply extends_refl. Qed.

Lemma appends_throw {A} e : appends_only (@throw A e).
Proof. intros s. apply extends_refl. Qed.

Lemma appends_lift {A} (r : Result A) : appends_only (lift r).
Proof. destruct r; intros s; apply extends_refl. Qed.

Lemma appends_modify f : (forall s, extends s (f s)) -> appends_only (modify f).
Proof. intros H s. apply H. Qed.

Lemma appends_bind {A B} (m : M A) (k : A -> M B) :
  appends_only m -> (forall a, appends_only (k a)) -> appends_only (bind m k).
Proof.
  intros Hm Hk s. unfold bind. specialize (Hm s).
  destruct (m s) as [[[a|e] s1] t1]; cbn in *; [|exact Hm].
  specialize (Hk a s1). destruct (k a s1) as [[r s2] t2]; cbn in *.
  eapply extends_trans; eassumption.
Qed.

Lemma appends_try_catch {A} (m : M A) h :
  appends_only m -> (forall e, appends_only (h e)) ->
  appends_only (try_catch m h).
Proof.
  intros Hm Hh s. unfold try_catch. specialize (Hm s).
  destruct (m s) as [[[a|e] s1] t1]; cbn in *; [exact Hm|].
  specialize (Hh e s1). destruct (h e s1) as [[r s2] t2]; cbn in *.
  eapply extends_trans; eassumption.
Qed.

Lemma appends_when b m : appends_only m -> appends_only (when b m).
Proof. destruct b; cbn; [trivial|]. intros _. apply appends_ret. Qed.

Lemma appends_when_some {A} (o : option A) k :
  (forall a, appends_only (k a)) -> appends_only (when_some o k).
Proof. destruct o; cbn; [auto|]. intros _. apply appends_ret. Qed.
End AppendsOnly.

Ltac appends_step :=
  repeat first
    [ apply appends_ret | apply appends_get | apply appends_emit
    | apply appends_throw | apply appends_lift
    | apply appends_bind; [|intro]
    | apply appends_when
    | apply appends_when_some; intro
    | apply appends_try_catch; [|intro]
    | apply appends_modify; intro;
      first [ apply extends_refl
            | split; [ eexists; reflexivity
                     | exists ""%string; symmetry; apply append_empty ]
            | split; [ exists ""%string; symmetry; apply append_empty
                     | eexists; reflexivity ] ] ].

Lemma appends_stop_each l : appends_only (stop_each l).
Proof. induction l as [|i l IH]; cbn [stop_each]; appends_step. exact IH. Qed.

Lemma handler_appends_only i : appends_only (handler i).
Proof.
  pose proof appends_stop_each as Hs.
  destruct i; cbn [handler].
  - unfold onopen. appends_step.
  - unfold onmessage, play_fragment, turn_complete_branch, stop_all_sources.
    appends_step; apply Hs.
  - unfold onerror. appends_step.
  - unfold onclose. appends_step.
  - apply appends_bind; [apply appends_get|]. intros s.
    destruct (scriptProcessor s) as [[|]|]; try apply appends_ret.
    unfold onaudioprocess. apply appends_bind; [apply appends_get|]. intros s'.
    destruct (sessionPromise s'); appends_step.
  - unfold onended. appends_step.
Qed.

(** No sequence of events ever shortens or clears a transcript
    accumulator. *)
Lemma run_appends_only l : appends_only (run l).
Proof.
  induction l as [|i l IH]; cbn [run]; [apply appends_ret|].
  apply appends_bind; [|intros _; exact IH].
  unfold deliver. apply appends_try_catch; [apply handler_appends_only|].
  intros e. apply appends_emit.
Qed.

(** *** The component never learns that a turn is complete *)

Lemma deliver_never_onTurnComplete i : never is_onTurnComplete (deliver i).
Proof.
  unfold deliver. apply never_try_catch.
  - apply handler_never_onTurnComplete.
  - intros e. auto with never.
Qed.

Lemma observe_without_onTurnComplete t : forall c,
  filter is_onTurnComplete t = [] ->
  evaluations (observe t c) = evaluations c /\
  conversationHistoryRef (observe t c) = conversationHistoryRef c.
Proof.
  induction t as [|e t IH]; intros c H; [split; reflexivity|].
  unfold observe. cbn [fold_left]. fold (observe t (callback e c)).
  destruct e; cbn [filter is_onTurnComplete] in H; try discriminate H;
    match goal with
    | |- context [observe t ?c'] =>
        destruct (IH c' H) as [-> ->]; split; reflexivity
    end.
Qed.

(** Whatever the session receives and whatever the user does, no
    transcript is ever sent for evaluation and the conversation history
    never grows. *)
Lemma evaluation_is_never_requested l : forall w,
  evaluations (fst (fst (acts l w))) = evaluations (fst w) /\
  conversationHistoryRef (fst (fst (acts l w))) = conversationHistoryRef (fst w).
Proof.
  induction l as [|a l IH]; intros [c s]; [split; reflexivity|].
  cbn [acts].
  assert (Ha : evaluations (fst (fst (act a (c, s)))) = evaluations c /\
               conversationHistoryRef (fst (fst (act a (c, s))))
               = conversationHistoryRef c).
  { destruct a; cbn [act].
    - cbn [fst]. apply observe_without_onTurnComplete.
      apply deliver_never_onTurnComplete.
    - destruct (liveSessionRef c); split; reflexivity.
    - destruct (liveSessionRef c); split; reflexivity. }
  destruct (act a (c, s)) as [w1 t1]. cbn [fst] in Ha.
  specialize (IH w1). destruct (acts l w1) as [w2 t2]. cbn [fst] in *.
  destruct IH as [-> ->]. exact Ha.
Qed.

(** Once the component has dropped the handle, nothing the user does
    reaches the session. *)
Lemma dropped_handle_is_out_of_reach l : forall c s,
  isRecording c = false -> liveSessionRef c = false ->
  Forall by_user l ->
  acts l (c, s) = ((c, s), []).
Proof.
  induction l as [|a l IH]; intros c s Hr Hl H; [reflexivity|].
  inversion H as [|? ? Ha Hrest]; subst.
  assert (E : act a (c, s) = ((c, s), [])).
  { destruct c as [r h i o hist ev]. cbn in Hr, Hl. subst r h.
    destruct a; [destruct Ha| |]; reflexivity. }
  cbn [acts]. rewrite E, (IH c s Hr Hl Hrest). reflexivity.
Qed.

(** C1 (code defect).  Two input-transcript fragments followed by the
    turn-complete signal, on a session that has just started: the caller
    sees the two transcript updates and nothing else.  [onTurnComplete]
    is not invoked with the concatenation ["Hello "], the handler ends in
    a [ReferenceError], and the student accumulator still holds
    ["Hello "] afterwards. *)
Theorem turn_complete_is_not_delivered :
  let out := run [Message 0 (input_fragment "Hel");
                  Message 0 (input_fragment "lo ");
                  Message 0 turn_complete] established in
  trace_of out =
    [onTranscriptionUpdate "Hel" ""; onTranscriptionUpdate "Hello " "";
     unhandledRejection (ReferenceError "fullInputTranscript")] /\
  count is_onTurnComplete (trace_of out) = 0%nat /\
  currentInputTranscription (state_of out) = "Hello "%string /\
  currentInputTranscription (state_of out) <> EmptyString.
Proof.
  cbv zeta. repeat split. discriminate.
Qed.

(** ** Error paths *)

(** [onerror] notifies the caller twice and touches nothing else. *)
Lemma onerror_only_notifies s message :
  onerror message s =
  (Ok tt, s,
   [onError ("Live session error: " ++ or_else message "Unknown error");
    onClose]).
Proof. reflexivity. Qed.

Lemma onclose_only_notifies s : onclose s = (Ok tt, s, [onClose]).
Proof. reflexivity. Qed.

(** C2 (code defect).  A remote error on a session that has just
    started: the caller receives [onError] once and then [onClose], and
    that is all.  No release call is made; the microphone track is still
    live and both audio contexts are still running, the session state
    being exactly what it was before the error.  The component has
    dropped the handle by then, so its Stop button and its unmounting
    release nothing either. *)
Theorem remote_error_releases_nothing :
  let out := run [Error (Some "boom"%string)] established in
  trace_of out = [onError "Live session error: boom"; onClose] /\
  count is_onError (trace_of out) = 1%nat /\
  count is_release (trace_of out) = 0%nat /\
  state_of out = established /\
  holds_resources (state_of out) /\
  let after :=
    acts [Platform (Error (Some "boom"%string)); StopSpeaking; Unmount]
      recording in
  liveSessionRef (fst (fst after)) = false /\
  count is_release (snd after) = 0%nat /\
  holds_resources (snd (fst after)).
Proof. cbv zeta. repeat split. Qed.

(** Whatever makes the set-up fail, the [catch] block makes no release
    call. *)
Lemma failed_start_never_releases h :
  never is_release (startLiveSpeakingSession h []).
Proof.
  unfold startLiveSpeakingSession, setup. cbn [run]. never_step.
Qed.

(** Once the microphone has been acquired, a failing set-up leaves it
    captured. *)
Lemma failed_start_keeps_microphone h e :
  getUserMedia h = Ok tt ->
  result_of (startLiveSpeakingSession h [] initial) = Throw e ->
  stream (state_of (startLiveSpeakingSession h [] initial)) = Some TrackLive.
Proof.
  destruct h as [g i o c]. cbn [getUserMedia]. intros -> H.
  destruct i as [[]|ei]; [|reflexivity].
  destruct o as [[]|eo]; [|reflexivity].
  destruct c as [[]|ec]; [|reflexivity].
  discriminate H.
Qed.

(** C3 (code defect).  The microphone and both audio contexts are
    acquired, then the remote connection fails: the error propagates to
    the caller after [onError] and [onClose], with no release call made;
    the microphone track is still live and both contexts still run.  No
    handle has been returned, so the component cannot release them
    afterwards. *)
Theorem failed_start_releases_nothing :
  let out := startLiveSpeakingSession refused [] initial in
  result_of out = Throw (HostError (Some "network down"%string)) /\
  trace_of out =
    [onError "Failed to start speaking session: network down"; onClose] /\
  count is_release (trace_of out) = 0%nat /\
  holds_resources (state_of out) /\
  let after := acts [StopSpeaking; Unmount] (fst (startSpeaking refused [] idle)) in
  liveSessionRef (fst (fst after)) = false /\
  count is_release (snd after) = 0%nat /\
  holds_resources (snd (fst after)).
Proof. cbv zeta. repeat split. Qed.

(** ** [close] *)

Lemma stop_each_spec l : forall s,
  stop_each l s =
  (Ok tt, set_sources (remove_each l (sources s)) s, map sourceStop l).
Proof.
  induction l as [|i l IH]; intros s; [reflexivity|].
  cbn [stop_each]. unfold bind, emit, modify. rewrite IH. reflexivity.
Qed.

Lemma remove_each_covers l : forall acc,
  incl acc l -> remove_each l acc = [].
Proof.
  induction l as [|i l IH]; intros acc H; cbn.
  - destruct acc as [|a acc]; [reflexivity|]. destruct (H a). now left.
  - apply IH. intros x Hx. apply in_remove in Hx. destruct Hx as [Hx Hn].
    destruct (H x Hx) as [E|E]; [congruence|exact E].
Qed.

Lemma stop_all_sources_spec s :
  stop_all_sources s = (Ok tt, set_sources [] s, map sourceStop (sources s)).
Proof.
  unfold stop_all_sources, bind, get. rewrite stop_each_spec.
  rewrite remove_each_covers by apply incl_refl. reflexivity.
Qed.

Lemma stopped_map_sourceStop l : stopped (map sourceStop l) = l.
Proof. induction l as [|i l IH]; cbn; congruence. Qed.

Lemma stopped_app t1 t2 : stopped (t1 ++ t2) = stopped t1 ++ stopped t2.
Proof.
  induction t1 as [|e t1 IH]; [reflexivity|].
  destruct e; cbn; rewrite ?IH; reflexivity.
Qed.

Lemma count_app f t1 t2 : count f (t1 ++ t2) = (count f t1 + count f t2)%nat.
Proof. unfold count. rewrite filter_app. apply length_app. Qed.

Lemma count_map_sourceStop f l :
  (forall i, f (sourceStop i) = false) -> count f (map sourceStop l) = 0%nat.
Proof.
  intros H. unfold count. induction l as [|i l IH]; [reflexivity|].
  cbn. rewrite H. exact IH.
Qed.

(** C4, the statement of the specification fails: on a session that has
    just started, the second [close()] is not a no-op, no handle has been
    nulled, and the microphone track is stopped twice. *)
Lemma second_close_is_not_a_noop : ~ second_close_is_noop established.
Proof.
  unfold second_close_is_noop. cbv zeta.
  intros (_ & _ & H & _). discriminate H.
Qed.

(** C4, as the code has it.  On a started session a second [close()]
    raises no exception, leaves the state exactly as the first call left
    it, and stops no source: every in-flight source is stopped once, by
    the first call, which empties the set.  No handle is nulled, though,
    so the second call is not a no-op: it closes the remote session
    again, stops the microphone track again and calls [close()] again on
    both audio contexts, which reject the call, being closed already. *)
Theorem second_close_repeats_release (s : State) :
  started s ->
  let first := close s in
  let second := close (state_of first) in
  result_of first = Ok tt /\
  result_of second = Ok tt /\
  state_of second = state_of first /\
  stopped (trace_of first) = sources s /\
  sources (state_of first) = [] /\
  stopped (trace_of second) = [] /\
  ~ handles_nulled (state_of first) /\
  count is_sessionClose (trace_of second) = 1%nat /\
  count is_trackStop (trace_of second) = 1%nat /\
  count is_contextClose (trace_of second) = 2%nat /\
  count is_contextCloseRejected (trace_of second) = 2%nat.
Proof.
  intros (Hs & Hi & Ho). cbv zeta.
  destruct s as [nst ictx octx sp mss srcs str cin cout pr w ns].
  cbn in Hs, Hi, Ho.
  destruct str as [tr|]; [|congruence].
  destruct ictx as [ic|]; [|congruence].
  destruct octx as [oc|]; [|congruence].
  unfold close, close_context, bind, emit, get, modify, when_some, ret.
  destruct ic, oc, sp as [p|], mss as [q|];
    cbn -[stop_all_sources];
    rewrite !stop_all_sources_spec;
    cbn;
    rewrite ?stopped_map_sourceStop;
    (repeat split; try reflexivity;
     try (intros (H & _); discriminate H)).
Qed.

Lemma second_close_repeats_release_witness :
  started established /\
  count is_trackStop
    (trace_of (close (state_of (close established)))) = 1%nat.
Proof.
  assert (H : started established)
    by (repeat split; discriminate).
  split; [exact H|].
  apply (second_close_repeats_release H).
Defined.

(** ** The audio branch of [onmessage] *)

Lemma audio_fragment_scheduled s now b buffer :
  playable b buffer ->
  onmessage now (audio_fragment b) s =
  (Ok tt, enqueued now buffer s,
   [onAIStartSpeaking;
    sourceStart (nextSource s) (Qmax (nextStartTime s) now) buffer]).
Proof.
  intros [Hb Hd]. destruct b as [|c b]; [congruence|].
  unfold decoded in Hd.
  unfold onmessage, play_fragment. cbn -[Codec.decode Codec.decodeAudioData Qmax].
  unfold bind at 1. cbn -[Codec.decode Codec.decodeAudioData Qmax].
  destruct (Codec.decode (String c b)) as [bytes|e]; [|discriminate Hd].
  cbn [rbind] in Hd.
  unfold bind, emit, modify, get, lift, ret.
  cbn -[Codec.decodeAudioData Qmax]. rewrite Hd. reflexivity.
Qed.

Lemma audio_fragment_rejected s now b e :
  b <> EmptyString -> decoded b = Throw e ->
  onmessage now (audio_fragment b) s =
  (Throw e, set_nextStartTime (Qmax (nextStartTime s) now) s,
   [onAIStartSpeaking]).
Proof.
  intros Hb Hd. destruct b as [|c b]; [congruence|].
  unfold decoded in Hd.
  unfold onmessage, play_fragment. cbn -[Codec.decode Codec.decodeAudioData Qmax].
  unfold bind at 1. cbn -[Codec.decode Codec.decodeAudioData Qmax].
  unfold bind, emit, modify, get, lift, ret, throw.
  cbn -[Codec.decode Codec.decodeAudioData Qmax].
  destruct (Codec.decode (String c b)) as [bytes|e']; cbn [rbind] in Hd.
  - cbn -[Codec.decodeAudioData Qmax]. rewrite Hd. reflexivity.
  - injection Hd as ->. reflexivity.
Qed.

Lemma deliver_message s now m :
  deliver (Message now m) s =
  try_catch (onmessage now m) (fun e => emit (unhandledRejection e)) s.
Proof. reflexivity. Qed.

Lemma deliver_audio_scheduled s now b buffer :
  playable b buffer ->
  deliver (Message now (audio_fragment b)) s =
  (Ok tt, enqueued now buffer s,
   [onAIStartSpeaking;
    sourceStart (nextSource s) (Qmax (nextStartTime s) now) buffer]).
Proof.
  intros H. rewrite deliver_message. unfold try_catch.
  rewrite (audio_fragment_scheduled s now H). reflexivity.
Qed.

(** ** "Coach started speaking" *)

Lemma every_fragment_announces s now b :
  b <> EmptyString ->
  count is_onAIStartSpeaking
    (trace_of (deliver (Message now (audio_fragment b)) s)) = 1%nat.
Proof.
  intros Hb. rewrite deliver_message. unfold try_catch.
  destruct (decoded b) as [buffer|e] eqn:Hd.
  - rewrite (audio_fragment_scheduled s now (conj Hb Hd)). reflexivity.
  - rewrite (audio_fragment_rejected s now Hb Hd). reflexivity.
Qed.

(** C8, the statement of the specification fails: two fragments of one
    burst, the second arriving while the first is still scheduled, and
    the caller is told twice that the coach started speaking. *)
Lemma second_fragment_announces_again :
  ~ announced_once
      (trace_of (run (burst [(0, "AAAAAAAA"%string); (0, "AAAAAAAA"%string)])
                   established)).
Proof. unfold announced_once. cbn. discriminate. Qed.

(** C8, as the code has it: [onAIStartSpeaking] is invoked once for every
    output audio fragment, the first of a burst and each one after it
    alike. *)
Theorem start_speaking_on_every_fragment (frags : list (Q * string)) :
  Forall (fun p => snd p <> EmptyString) frags ->
  forall s,
    count is_onAIStartSpeaking (trace_of (run (burst frags) s))
    = List.length frags.
Proof.
  induction 1 as [|[now b] frags Hb _ IH]; intros s; [reflexivity|].
  cbn [burst map fst snd]. rewrite run_cons. cbn [trace_of snd].
  rewrite count_app. fold (burst frags). rewrite IH.
  cbn [snd] in Hb. rewrite (every_fragment_announces s now Hb). reflexivity.
Qed.

Lemma start_speaking_on_every_fragment_witness :
  count is_onAIStartSpeaking
    (trace_of (run (burst [(0, "AAAAAAAA"%string); (1, "AAAAAAAA"%string);
                           (2, "AAAAAAAA"%string)]) established)) = 3%nat.
Proof.
  apply (@start_speaking_on_every_fragment
           [(0, "AAAAAAAA"%string); (1, "AAAAAAAA"%string);
            (2, "AAAAAAAA"%string)]).
  repeat constructor; discriminate.
Defined.

(** ** Interruption *)


(** The same happens, with no turn-complete mark, when the message
    carries an audio payload that does not decode: the handler ends at
    the decoding. *)
Lemma interruption_lost_in_decoding :
  ~ stop_signalled established 0
      (mkMessage (Some (mkServerContent None
         (Some (mkContent (Some [mkPart (Some (mkInlineData (Some "!"%string)))])))
         None false true))).
Proof.
  intros H. specialize (H eq_refl eq_refl). cbn in H. lia.
Qed.



(** ** Playback scheduling *)

Lemma starts_app t1 t2 : starts (t1 ++ t2) = starts t1 ++ starts t2.
Proof.
  induction t1 as [|e t1 IH]; [reflexivity|].
  destruct e; cbn; rewrite ?IH; reflexivity.
Qed.

Lemma Qmax_keeps_left (a b : Q) : b <= a -> Qmax a b = a.
Proof.
  intros H. unfold Qmax, GenericMinMax.gmax.
  case_eq (Qcompare a b); intros E; try reflexivity.
  apply Qlt_alt in E. exfalso. exact (Qlt_not_le _ _ E H).
Qed.

Lemma Qmax_takes_right (a b : Q) : a < b -> Qmax a b = b.
Proof.
  intros H. unfold Qmax, GenericMinMax.gmax.
  apply Qlt_alt in H. unfold Qcompare in *. rewrite H. reflexivity.
Qed.

Lemma silence3_playable : playable "AAAAAAAA" silence3.
Proof. split; [discriminate|reflexivity]. Qed.

(** C6, the statement of the specification fails: two buffers of
    3/24000 s each, the second arriving when the output clock reads 5 s.
    The first ends at 3/24000 s, the second starts at 5 s: a gap. *)
Lemma stalled_pipeline_leaves_a_gap :
  ~ back_to_back None
      (starts (trace_of (run (burst [(0, "AAAAAAAA"%string);
                                     (5, "AAAAAAAA"%string)]) established))).
Proof.
  cbn. intros (_ & H & _). vm_compute in H. discriminate H.
Qed.

(** C6, as the code has it.  For buffers enqueued in order with no
    interruption in between, each buffer starts at the larger of
    [nextStartTime] and the output clock at its arrival, and
    [nextStartTime] then advances by its duration.  So buffer k never
    starts before the end of buffer k-1 (no overlap); it starts exactly
    at that end when the clock has not passed it, and at the clock
    reading, after a gap, when it has. *)
Theorem buffers_anchored_to_previous_end (frags : list (Q * string)) :
  forall (buffers : list Codec.AudioBuffer) (s : State),
  Forall2 playable (map snd frags) buffers ->
  let out := run (burst frags) s in
  map snd (starts (trace_of out)) = map Codec.duration buffers /\
  anchored (nextStartTime s) (combine (map fst frags) (starts (trace_of out))) /\
  nextStartTime (state_of out)
  = final_end (nextStartTime s) (starts (trace_of out)).
Proof.
  induction frags as [|[now b] frags IH]; intros buffers s H; cbv zeta.
  - inversion H; subst. repeat split.
  - cbn [map snd fst] in H. inversion H as [|? buffer ? rest Hp Hr]; subst.
    cbn [burst map fst snd]. fold (burst frags). rewrite run_cons.
    rewrite (deliver_audio_scheduled s now Hp).
    cbn [trace_of state_of fst snd app starts combine map].
    destruct (IH rest (enqueued now buffer s) Hr) as (Hd & Ha & Hn).
    fold (trace_of (run (burst frags) (enqueued now buffer s))).
    fold (state_of (run (burst frags) (enqueued now buffer s))).
    repeat split.
    + f_equal. exact Hd.
    + apply Q.le_max_l.
    + apply Qmax_keeps_left.
    + apply Qmax_takes_right.
    + exact Ha.
    + rewrite Hn. reflexivity.
Qed.

Lemma buffers_anchored_to_previous_end_witness :
  anchored 0
    (combine [0; 5]
       (starts (trace_of (run (burst [(0, "AAAAAAAA"%string);
                                      (5, "AAAAAAAA"%string)]) established)))).
Proof.
  apply (@buffers_anchored_to_previous_end
           [(0, "AAAAAAAA"%string); (5, "AAAAAAAA"%string)]
           [silence3; silence3] established).
  repeat constructor; discriminate.
Defined.

Ltac flushed :=
  repeat first [ rewrite stopped_app | rewrite stopped_map_sourceStop
               | progress cbn [stopped app] ];
  rewrite ?app_nil_r;
  first [ apply incl_refl | apply incl_appl, incl_refl ].

(** What a message leaves behind when it carries the interruption mark
    and its handler completes. *)
Lemma interrupted_message_flushes s now m :
  flag interrupted m = true ->
  result_of (onmessage now m s) = Ok tt ->
  sources (state_of (onmessage now m s)) = [] /\
  nextStartTime (state_of (onmessage now m s)) = 0 /\
  incl (sources s) (stopped (trace_of (onmessage now m s))).
Proof.
  intros Hi.
  destruct m as [[[it mt ot tc ir]|]]; cbn in Hi; [subst ir|discriminate Hi].
  destruct s as [nst ictx octx sp mss srcs str cin cout pr w ns].
  unfold onmessage.
  destruct (audioData (mkMessage (Some (mkServerContent it mt ot tc true))))
    as [[[|c b]|]|e] eqn:Ha.
  4: { destruct it; intros H; discriminate H. }
  1, 3: destruct it as [i|], ot as [o|], tc;
    cbn -[stop_all_sources]; unfold bind;
    rewrite ?stop_all_sources_spec; cbn;
    intros H; try discriminate H;
    (split; [reflexivity | split; [reflexivity | flushed]]).
  unfold play_fragment.
  destruct it as [i|], ot as [o|], tc;
    cbn -[stop_all_sources Codec.decode Codec.decodeAudioData Qmax];
    unfold bind, emit, modify, get, lift, ret, throw;
    cbn -[stop_all_sources Codec.decode Codec.decodeAudioData Qmax];
    (destruct (Codec.decode (String c b)) as [bytes|e1];
     [destruct (Codec.decodeAudioData bytes 24000 1) as [buffer|e2]|]);
    cbn -[stop_all_sources Qmax];
    rewrite ?stop_all_sources_spec; cbn -[Qmax];
    intros H; try discriminate H;
    (split; [reflexivity | split; [reflexivity | flushed]]).
Qed.

(** C7.  After a message carrying the interruption mark has been handled
    to the end: every source that was in flight has been stopped, the
    in-flight set is empty and [nextStartTime] is 0; and the next buffer
    to be enqueued, the output clock reading [later >= 0], is scheduled
    to start at [later]. *)
Theorem interruption_restarts_from_now (s : State) (now : Q)
    (m : LiveServerMessage) :
  flag interrupted m = true ->
  result_of (onmessage now m s) = Ok tt ->
  let after := state_of (onmessage now m s) in
  incl (sources s) (stopped (trace_of (onmessage now m s))) /\
  sources after = [] /\
  nextStartTime after = 0 /\
  forall (later : Q) (b : string) (buffer : Codec.AudioBuffer),
    0 <= later -> playable b buffer ->
    exists start,
      trace_of (onmessage later (audio_fragment b) after)
      = [onAIStartSpeaking; sourceStart (nextSource after) start buffer] /\
      start == later.
Proof.
  intros Hi Hr. cbv zeta.
  destruct (interrupted_message_flushes s now m Hi Hr) as (Hs & Hn & Hst).
  repeat split; try assumption.
  intros later b buffer Hl Hp.
  rewrite (audio_fragment_scheduled _ later Hp). rewrite Hn.
  exists (Qmax 0 later). split; [reflexivity|]. apply Q.max_r, Hl.
Qed.

Lemma interruption_restarts_from_now_witness :
  let before :=
    state_of (run (burst [(0, "AAAAAAAA"%string); (5, "AAAAAAAA"%string)])
                established) in
  let after := state_of (onmessage 6 interruption before) in
  sources before = [0%nat; 1%nat] /\
  sources after = [] /\
  nextStartTime after = 0 /\
  exists start,
    trace_of (onmessage 7 (audio_fragment "AAAAAAAA") after)
    = [onAIStartSpeaking; sourceStart (nextSource after) start silence3] /\
    start == 7.
Proof.
  cbv zeta.
  pose proof (@interruption_restarts_from_now
    (state_of (run (burst [(0, "AAAAAAAA"%string); (5, "AAAAAAAA"%string)])
                 established))
    6 interruption eq_refl eq_refl) as H.
  cbv zeta in H. destruct H as (_ & Hs & Hn & Hnext).
  split; [reflexivity|]. split; [exact Hs|]. split; [exact Hn|].
  apply Hnext; [discriminate|exact silence3_playable].
Defined.

(** ** The codec *)

Ltac Zify.zify_post_hook ::= Z.to_euclidean_division_equations.

(** Induction two elements at a time, the way [int16_elements] reads a
    buffer. *)
Lemma pairs_ind {A} (P : list A -> Prop) :
  P [] -> (forall a, P [a]) ->
  (forall a b l, P l -> P (a :: b :: l)) ->
  forall l, P l.
Proof.
  intros H0 H1 H2.
  assert (H : forall l, P l /\ forall a, P (a :: l)).
  { induction l as [|x l [IH1 IH2]]; split; auto. }
  intros l. apply H.
Qed.

Lemma sample16_shift a b l k :
  sample16 (a :: b :: l) (S k) = sample16 l k.
Proof.
  unfold sample16.
  replace (2 * S k)%nat with (S (S (2 * k))) by lia.
  replace (S (S (2 * k)) + 1)%nat with (S (S (2 * k + 1))) by lia.
  reflexivity.
Qed.

Lemma int16_elements_odd bytes :
  Nat.odd (List.length bytes) = true ->
  Codec.int16_elements bytes = Throw RangeError.
Proof.
  induction bytes as [| a | a b l IH] using pairs_ind; intros H.
  - discriminate H.
  - reflexivity.
  - cbn [Codec.int16_elements]. rewrite IH; [reflexivity|].
    cbn [List.length] in H. rewrite Nat.odd_succ_succ in H. exact H.
Qed.

Lemma int16_elements_even bytes :
  Nat.even (List.length bytes) = true ->
  exists samples,
    Codec.int16_elements bytes = Ok samples /\
    List.length samples = (List.length bytes / 2)%nat /\
    forall k, (k < List.length samples)%nat ->
      nth_error samples k = Some (sample16 bytes k).
Proof.
  induction bytes as [| a | a b l IH] using pairs_ind; intros H.
  - exists []. repeat split. intros k Hk. inversion Hk.
  - discriminate H.
  - cbn [List.length] in H. rewrite Nat.even_succ_succ in H.
    destruct (IH H) as (samples & E & L & N).
    exists (Codec.wrap16 (a + 256 * b) :: samples).
    cbn [Codec.int16_elements]. rewrite E. cbn [rbind List.length].
    split; [reflexivity|]. split; [lia|].
    intros [|k] Hk; [reflexivity|].
    rewrite sample16_shift. cbn [nth_error]. apply N.
    cbn [List.length] in Hk. lia.
Qed.

Lemma typed_set_length {A} (l : list A) : forall i v,
  List.length (Codec.typed_set l i v) = List.length l.
Proof.
  induction l as [|x l IH]; intros [|i] v; cbn; auto.
Qed.

Lemma typed_set_same {A} (l : list A) : forall i v,
  (i < List.length l)%nat -> nth_error (Codec.typed_set l i v) i = Some v.
Proof.
  induction l as [|x l IH]; intros [|i] v H; cbn in *; try lia; auto.
  apply IH. lia.
Qed.

Lemma typed_set_other {A} (l : list A) : forall i j v,
  i <> j -> nth_error (Codec.typed_set l i v) j = nth_error l j.
Proof.
  induction l as [|x l IH]; intros [|i] [|j] v H; cbn; auto; congruence.
Qed.

(** The stores of a channel loop: the frames inside the buffer receive
    their value, the stores past its end are dropped. *)
Lemma fill_loop {A} (g : nat -> A) (k : nat) : forall (init : list A),
  let out :=
    fold_left (fun acc i => Codec.typed_set acc i (g i)) (seq 0 k) init in
  List.length out = List.length init /\
  forall i, (i < List.length init)%nat ->
    nth_error out i = if (i <? k)%nat then Some (g i) else nth_error init i.
Proof.
  induction k as [|k IH]; intros init; cbv zeta.
  - split; [reflexivity|]. intros i _. reflexivity.
  - rewrite seq_S, fold_left_app. cbn [fold_left Nat.add].
    destruct (IH init) as [L N]. cbv zeta in L, N.
    split; [rewrite typed_set_length; exact L|].
    intros i Hi. destruct (Nat.eq_dec k i) as [->|Hne].
    + rewrite typed_set_same by lia.
      replace (i <? S i)%nat with true by (symmetry; apply Nat.ltb_lt; lia).
      reflexivity.
    + rewrite typed_set_other by exact Hne. rewrite (N i Hi).
      destruct (Nat.ltb_spec i k), (Nat.ltb_spec i (S k)); try lia; reflexivity.
Qed.

Lemma nth_error_filled_channels {A B} (f : nat -> A -> B) (x : A) n ch :
  (ch < n)%nat ->
  nth_error (map (fun p : nat * A => f (fst p) (snd p))
               (combine (seq 0 n) (repeat x n))) ch
  = Some (f ch x).
Proof.
  intros H. rewrite nth_error_map.
  assert (E : nth_error (combine (seq 0 n) (repeat x n)) ch = Some (ch, x)).
  { assert (G : forall m start c, (c < m)%nat ->
        nth_error (combine (seq start m) (repeat x m)) c
        = Some ((start + c)%nat, x)).
    { induction m as [|m IHm]; intros start c Hm; [lia|].
      destruct c as [|c]; cbn.
      - now rewrite Nat.add_0_r.
      - rewrite IHm by lia. f_equal. f_equal. lia. }
    apply (G n 0%nat ch H). }
  rewrite E. reflexivity.
Qed.

(** C9, the statement of the specification fails: three bytes, mono.
    There is one whole sample and a trailing byte; the buffer view is
    refused with a [RangeError] and no buffer is produced. *)
Lemma odd_byte_length_raises : ~ truncates_partial_sample [0; 0; 1]%Z 1.
Proof. intros (b & H & _). discriminate H. Qed.

(** The sample rates and channel counts that every implementation of
    [createBuffer] accepts are accepted here. *)
Lemma supported_everywhere numChannels rate :
  (numChannels <= 32)%nat -> 8000 <= rate -> rate <= 96000 ->
  Codec.supported numChannels rate = true.
Proof.
  intros Hc Hlo Hhi. unfold Codec.supported.
  apply andb_true_intro. split; [apply andb_true_intro; split|].
  - apply Nat.leb_le. exact Hc.
  - apply Qle_bool_iff. apply Qle_trans with 8000; [discriminate|exact Hlo].
  - apply Qle_bool_iff. apply Qle_trans with 96000; [exact Hhi|discriminate].
Qed.

Lemma unsupported_rate numChannels rate :
  rate <= 0 -> Codec.supported numChannels rate = false.
Proof.
  intros H. unfold Codec.supported.
  destruct (Qle_bool Codec.min_rate rate) eqn:E.
  - apply Qle_bool_iff in E. exfalso.
    apply (Qle_not_lt Codec.min_rate 0); [|reflexivity].
    apply Qle_trans with rate; assumption.
  - rewrite andb_false_r. reflexivity.
Qed.

(** C9, as the code has it.  The bytes are read as 16-bit signed
    little-endian samples and each is divided by 32768; the buffer has
    [totalSamples / channelCount] frames, rounded down, so the samples of
    a trailing partial frame are dropped.  That is so for 1 to 32
    channels and a sample rate from 8000 to 96000 Hz, which every
    implementation of [createBuffer] accepts.  An odd byte length is not
    truncated: it raises a [RangeError].  A buffer that would have no
    channel or no frame, and a sample rate that is not positive, are
    refused with [NotSupportedError]. *)
Theorem decodeAudioData_frames (bytes : list Z) (rate : Q) (numChannels : nat) :
  (Nat.odd (List.length bytes) = true ->
   Codec.decodeAudioData bytes rate numChannels = Throw RangeError) /\
  (Nat.even (List.length bytes) = true ->
   (numChannels = 0 \/ List.length bytes / 2 < numChannels)%nat \/ rate <= 0 ->
   Codec.decodeAudioData bytes rate numChannels = Throw NotSupportedError) /\
  (Nat.even (List.length bytes) = true ->
   (1 <= numChannels <= List.length bytes / 2)%nat ->
   (numChannels <= 32)%nat -> 8000 <= rate -> rate <= 96000 ->
   exists b,
     Codec.decodeAudioData bytes rate numChannels = Ok b /\
     Codec.numberOfChannels b = numChannels /\
     Codec.sampleRate b = rate /\
     Codec.length b = (List.length bytes / 2 / numChannels)%nat /\
     forall channel i,
       (channel < numChannels)%nat -> (i < Codec.length b)%nat ->
       sample_at b channel i
       = Some (Fin (inject_Z (sample16 bytes (i * numChannels + channel))
                    / 32768))).
Proof.
  split; [|split].
  - intros H. unfold Codec.decodeAudioData.
    rewrite (int16_elements_odd bytes H). reflexivity.
  - intros H Hc. unfold Codec.decodeAudioData.
    destruct (int16_elements_even bytes H) as (samples & E & L & _).
    rewrite E. cbn [rbind]. unfold Codec.createBuffer. rewrite L.
    destruct Hc as [[->|Hc]|Hr].
    + reflexivity.
    + replace (List.length bytes / 2 / numChannels =? 0)%nat with true.
      * rewrite orb_true_r. reflexivity.
      * symmetry. apply Nat.eqb_eq. apply Nat.div_small. exact Hc.
    + rewrite (unsupported_rate numChannels Hr).
      destruct ((numChannels =? 0) || (List.length bytes / 2 / numChannels =? 0))%nat;
        reflexivity.
  - intros H [Hc1 Hc2] Hmax Hlo Hhi. unfold Codec.decodeAudioData.
    destruct (int16_elements_even bytes H) as (samples & E & L & N).
    rewrite E. cbn [rbind]. unfold Codec.createBuffer. rewrite L.
    set (n := (List.length bytes / 2)%nat) in *.
    assert (Hf : (1 <= n / numChannels)%nat) by nia.
    replace (numChannels =? 0)%nat with false
      by (symmetry; apply Nat.eqb_neq; lia).
    replace (n / numChannels =? 0)%nat with false
      by (symmetry; apply Nat.eqb_neq; lia).
    rewrite (supported_everywhere Hmax Hlo Hhi).
    cbn [orb rbind Codec.numberOfChannels Codec.length Codec.sampleRate
         Codec.channels].
    eexists. split; [reflexivity|].
    cbn [Codec.numberOfChannels Codec.length Codec.sampleRate Codec.channels].
    repeat split.
    intros channel i Hch Hi. unfold sample_at. cbn [Codec.channels].
    rewrite (nth_error_filled_channels
               (fun c x => Codec.fill_channel samples numChannels c
                             (Codec.loop_bound n numChannels) x)
               (repeat (Fin 0) (n / numChannels)) Hch).
    unfold Codec.fill_channel.
    destruct (fill_loop
                (fun i => Codec.int16_get_scaled samples (i * numChannels + channel))
                (Codec.loop_bound n numChannels)
                (repeat (Fin 0) (n / numChannels))) as [_ F].
    cbv zeta in F. rewrite F by (rewrite repeat_length; exact Hi).
    replace (i <? Codec.loop_bound n numChannels)%nat with true.
    + unfold Codec.int16_get_scaled. rewrite N; [reflexivity|].
      rewrite L. nia.
    + symmetry. apply Nat.ltb_lt. unfold Codec.loop_bound. nia.
Qed.

Lemma decodeAudioData_frames_witness :
  Codec.decodeAudioData [0; 0; 1]%Z 24000 1 = Throw RangeError /\
  Codec.decodeAudioData [1; 0]%Z 24000 2 = Throw NotSupportedError /\
  Codec.decodeAudioData [1; 0]%Z 0 1 = Throw NotSupportedError /\
  exists b,
    Codec.decodeAudioData [1; 0; 2; 0; 255; 255]%Z 24000 2 = Ok b /\
    Codec.length b = 1%nat.
Proof.
  split; [|split; [|split]].
  - apply (decodeAudioData_frames [0; 0; 1]%Z 24000 1). reflexivity.
  - apply (decodeAudioData_frames [1; 0]%Z 24000 2); [reflexivity|].
    left. right. cbn. lia.
  - apply (decodeAudioData_frames [1; 0]%Z 0 1); [reflexivity|].
    right. discriminate.
  - destruct (decodeAudioData_frames [1; 0; 2; 0; 255; 255]%Z 24000 2)
      as (_ & _ & H).
    destruct H as (b & Hb & _ & _ & Hl & _);
      [reflexivity|cbn; lia|lia|discriminate|discriminate|].
    exists b. split; [exact Hb|exact Hl].
Defined.

(** *** Base64 round trip *)

(** Induction three elements at a time, the way [pack] reads bytes. *)
Lemma triples_ind {A} (P : list A -> Prop) :
  P [] -> (forall a, P [a]) -> (forall a b, P [a; b]) ->
  (forall a b c l, P l -> P (a :: b :: c :: l)) ->
  forall l, P l.
Proof.
  intros H0 H1 H2 H3.
  assert (H : forall l, P l /\ (forall a, P (a :: l)) /\
                        (forall a b, P (a :: b :: l))).
  { induction l as [|x l (IH1 & IH2 & IH3)]; repeat split; auto. }
  intros l. apply H.
Qed.

Lemma sextet_facts (n : N) :
  (n < 64)%N ->
  Ascii.eqb (Codec.sextet_char n) Codec.pad = false /\
  Codec.is_ascii_whitespace (Codec.sextet_char n) = false /\
  Codec.char_sextet (Codec.sextet_char n) = Some n.
Proof.
  intros H. rewrite <- (N2Nat.id n).
  assert (Hm : (N.to_nat n < 64)%nat) by lia.
  clear H. revert Hm. generalize (N.to_nat n). clear n. intros m Hm.
  do 64 (destruct m as [|m]; [vm_compute; repeat split|]).
  lia.
Qed.

Lemma pack_sextets l :
  Forall (fun b => (b < 256)%N) l ->
  Forall (fun x => (x < 64)%N) (Codec.pack l).
Proof.
  induction l as [| a | a b | a b c l IH] using triples_ind; intros H;
    cbn [Codec.pack].
  - constructor.
  - inversion H; subst. repeat constructor; lia.
  - inversion H as [|? ? Ha H']; subst. inversion H'; subst.
    repeat constructor; lia.
  - inversion H as [|? ? Ha H1]; subst. inversion H1 as [|? ? Hb H2]; subst.
    inversion H2 as [|? ? Hc H3]; subst.
    repeat (constructor; [lia|]). apply IH, H3.
Qed.

Lemma unpack_pack l :
  Forall (fun b => (b < 256)%N) l -> Codec.unpack (Codec.pack l) = l.
Proof.
  induction l as [| a | a b | a b c l IH] using triples_ind; intros H;
    cbn [Codec.pack Codec.unpack].
  - reflexivity.
  - inversion H; subst. f_equal. lia.
  - inversion H as [|? ? Ha H']; subst. inversion H'; subst.
    f_equal; [lia|]. f_equal. lia.
  - inversion H as [|? ? Ha H1]; subst. inversion H1 as [|? ? Hb H2]; subst.
    inversion H2 as [|? ? Hc H3]; subst.
    rewrite (IH H3). f_equal; [lia|]. f_equal; [lia|]. f_equal. lia.
Qed.

Lemma pack_length l :
  ((List.length (Codec.pack l) + (3 - List.length l mod 3) mod 3) mod 4 = 0
   /\ List.length (Codec.pack l) mod 4 <> 1)%nat.
Proof.
  induction l as [| a | a b | a b c l [IH1 IH2]] using triples_ind;
    cbn [Codec.pack List.length]; try (split; [reflexivity|discriminate]).
  split; lia.
Qed.

Lemma strip_whitespace_clean l :
  Forall (fun c => Codec.is_ascii_whitespace c = false) l ->
  Codec.strip_whitespace l = l.
Proof.
  unfold Codec.strip_whitespace.
  induction 1 as [|c l Hc _ IH]; cbn; [reflexivity|].
  rewrite Hc, IH. reflexivity.
Qed.

Lemma strip_padding_spec (body : list ascii) (k : nat) :
  Forall (fun c => Ascii.eqb c Codec.pad = false) body ->
  (k <= 2)%nat ->
  ((List.length body + k) mod 4 = 0)%nat ->
  Codec.strip_padding (body ++ repeat Codec.pad k) = body.
Proof.
  intros Hb Hk Hl. unfold Codec.strip_padding.
  rewrite length_app, repeat_length.
  replace ((List.length body + k) mod 4 =? 0)%nat with true
    by (symmetry; apply Nat.eqb_eq; exact Hl).
  rewrite rev_app_distr, rev_repeat.
  pose proof (Forall_rev Hb) as Hr. pose proof (rev_involutive body) as Hi.
  destruct k as [|[|[|k]]]; [| | |lia]; cbn [repeat app].
  - rewrite app_nil_r.
    destruct (rev body) as [|c1 [|c2 r]]; [reflexivity| |];
      apply Forall_inv in Hr; rewrite Hr; reflexivity.
  - destruct (rev body) as [|c2 r]; cbn [rev] in Hi.
    + subst body. reflexivity.
    + apply Forall_inv in Hr.
      change (Ascii.eqb Codec.pad Codec.pad) with true. cbv iota.
      rewrite Hr. exact Hi.
  - change (Ascii.eqb Codec.pad Codec.pad) with true. cbv iota. exact Hi.
Qed.

Lemma sextets_of_chars l :
  Forall (fun x => (x < 64)%N) l ->
  Codec.sextets (map Codec.sextet_char l) = Some l.
Proof.
  induction 1 as [|x l Hx _ IH]; cbn [map Codec.sextets]; [reflexivity|].
  destruct (sextet_facts Hx) as (_ & _ & ->). rewrite IH. reflexivity.
Qed.

Lemma codes_bounded s : Forall (fun b => (b < 256)%N) (Codec.codes s).
Proof.
  unfold Codec.codes. apply Forall_map, Forall_forall.
  intros c _. apply N_ascii_bounded.
Qed.

Lemma string_length_list s :
  String.length s = List.length (list_ascii_of_string s).
Proof. induction s as [|c s IH]; cbn; congruence. Qed.

(** [atob] undoes [btoa]. *)
Lemma atob_btoa s : Codec.atob (Codec.btoa s) = Ok s.
Proof.
  unfold Codec.atob, Codec.btoa. rewrite list_ascii_of_string_of_list_ascii.
  pose proof (pack_sextets (codes_bounded s)) as H64.
  set (body := map Codec.sextet_char (Codec.pack (Codec.codes s))).
  assert (Hpad : Forall (fun c => Ascii.eqb c Codec.pad = false) body).
  { apply Forall_map. eapply Forall_impl; [|exact H64].
    intros x Hx. apply (sextet_facts Hx). }
  assert (Hws : Forall (fun c => Codec.is_ascii_whitespace c = false)
                  (body ++ Codec.padding (String.length s))).
  { apply Forall_app. split.
    - apply Forall_map. eapply Forall_impl; [|exact H64].
      intros x Hx. apply (sextet_facts Hx).
    - apply Forall_forall. intros c Hc. apply repeat_spec in Hc. subst c.
      reflexivity. }
  rewrite (strip_whitespace_clean Hws).
  destruct (pack_length (Codec.codes s)) as [L1 L2].
  assert (Hlen : List.length (Codec.codes s) = String.length s).
  { unfold Codec.codes. rewrite length_map. symmetry. apply string_length_list. }
  assert (Hbody : List.length body = List.length (Codec.pack (Codec.codes s)))
    by (unfold body; apply length_map).
  unfold Codec.padding. rewrite strip_padding_spec; try assumption.
  - replace (List.length body mod 4 =? 1)%nat with false
      by (symmetry; apply Nat.eqb_neq; rewrite Hbody; exact L2).
    unfold body. rewrite (sextets_of_chars H64).
    rewrite (unpack_pack (codes_bounded s)). unfold Codec.codes.
    rewrite map_map.
    rewrite (map_ext _ (fun c => c)) by (intros c; apply ascii_N_embedding).
    rewrite map_id. rewrite string_of_list_ascii_of_string. reflexivity.
  - lia.
  - rewrite Hbody, <- Hlen. exact L1.
Qed.

(** *** The PCM round trip *)

Lemma decode_btoa bytes :
  Forall (fun b => (0 <= b < 256)%Z) bytes ->
  Codec.decode (Codec.btoa (Codec.fromCharCodes bytes)) = Ok bytes.
Proof.
  intros H. unfold Codec.decode. rewrite atob_btoa. cbn [rbind].
  unfold Codec.fromCharCodes. rewrite list_ascii_of_string_of_list_ascii.
  rewrite map_map. f_equal.
  induction H as [|b l Hb _ IH]; cbn [map]; [reflexivity|].
  rewrite IH. f_equal.
  rewrite N_ascii_embedding by lia. lia.
Qed.

Lemma int16_bytes_range l :
  Forall (fun b => (0 <= b < 256)%Z) (Codec.int16_bytes l).
Proof.
  induction l as [|v l IH]; cbn; [constructor|].
  constructor; [lia|]. constructor; [lia|exact IH].
Qed.

Lemma wrap16_inside z : (-32768 <= z < 32768)%Z -> Codec.wrap16 z = z.
Proof.
  intros H. unfold Codec.wrap16.
  destruct (Z.leb_spec 32768 (z mod 65536)); lia.
Qed.

Lemma int16_elements_bytes l :
  Forall (fun v => (-32768 <= v < 32768)%Z) l ->
  Codec.int16_elements (Codec.int16_bytes l) = Ok l.
Proof.
  induction 1 as [|v l Hv _ IH]; [reflexivity|].
  cbn [Codec.int16_bytes flat_map app]. cbn [Codec.int16_elements].
  fold (Codec.int16_bytes l). rewrite IH. cbn [rbind]. f_equal. f_equal.
  unfold Codec.wrap16.
  destruct (Z.leb_spec 32768
              (((v mod 65536) mod 256 + 256 * (v mod 65536 / 256)) mod 65536));
    lia.
Qed.

(** Quantisation of a sample in [[-1, 1)]: the stored integer fits in 16
    bits and is within one step of the sample. *)
Lemma quantise_inside (q : Q) :
  -1 <= q /\ q < 1 ->
  let z := Codec.ToInt16 (Codec.times32768 (Fin q)) in
  (-32768 <= z < 32768)%Z /\
  Qabs (inject_Z z / 32768 - q) <= 1 # 32768.
Proof.
  intros [Hlo Hhi]. cbv zeta. cbn [Codec.ToInt16 Codec.times32768].
  destruct q as [n d]. unfold Qle, Qlt in Hlo, Hhi. cbn in Hlo, Hhi.
  unfold Codec.truncate. cbn [Qmult Qnum Qden].
  rewrite Pos.mul_1_r.
  set (z := (n * 32768 ÷ Z.pos d)%Z).
  assert (Hz : (-32768 <= z < 32768)%Z) by (subst z; nia).
  rewrite (wrap16_inside Hz). split; [exact Hz|].
  apply Qabs_Qle_condition. unfold Qle. cbn. subst z. split; nia.
Qed.

(** Decoding a mono buffer, in closed form. *)
Lemma decodeAudioData_mono bytes rate samples :
  Codec.int16_elements bytes = Ok samples ->
  samples <> [] ->
  Codec.supported 1 rate = true ->
  Codec.decodeAudioData bytes rate 1 =
  Ok (Codec.mkBuffer 1 (List.length samples) rate
        [map (fun v => Fin (inject_Z v / 32768)) samples]).
Proof.
  intros E Hne Hs. unfold Codec.decodeAudioData. rewrite E. cbn [rbind].
  rewrite Nat.div_1_r. unfold Codec.createBuffer. rewrite Hs.
  set (n := List.length samples).
  assert (Hn : n <> 0%nat) by (subst n; destruct samples; cbn; congruence).
  replace (n =? 0)%nat with false by (symmetry; apply Nat.eqb_neq; exact Hn).
  cbn [Nat.eqb orb rbind Codec.numberOfChannels Codec.length Codec.sampleRate
       Codec.channels repeat seq combine map fst snd].
  f_equal. f_equal. f_equal.
  unfold Codec.fill_channel.
  destruct (fill_loop (fun i => Codec.int16_get_scaled samples (i * 1 + 0))
              (Codec.loop_bound n 1) (repeat (Fin 0) n)) as [L F].
  cbv zeta in L, F. rewrite repeat_length in L, F.
  apply nth_error_ext. intros i.
  destruct (Nat.lt_ge_cases i n) as [Hi|Hi].
  - rewrite (F i Hi).
    replace (i <? Codec.loop_bound n 1)%nat with true
      by (symmetry; apply Nat.ltb_lt; unfold Codec.loop_bound; lia).
    rewrite nth_error_map. unfold Codec.int16_get_scaled.
    replace (i * 1 + 0)%nat with i by lia.
    destruct (nth_error samples i) eqn:Ei; [reflexivity|].
    apply nth_error_None in Ei. fold n in Ei. lia.
  - rewrite (proj2 (nth_error_None _ i)) by (rewrite L; exact Hi).
    symmetry. apply nth_error_None. rewrite length_map. exact Hi.
Qed.

(** The round trip holds where the encoder does not overflow: a
    non-empty sequence of samples in [[-1, 1)] comes back with the same
    length and within 1/32768 of each sample. *)
Lemma round_trip_inside_range (samples : list Q) :
  samples <> [] ->
  Forall (fun q => -1 <= q /\ q < 1) samples ->
  round_trip_claim samples.
Proof.
  intros Hne H. unfold round_trip_claim, Codec.roundtrip, Codec.createBlob.
  cbn [Codec.data]. rewrite decode_btoa by apply int16_bytes_range.
  cbn [rbind]. rewrite map_map.
  set (ints := map (fun q => Codec.ToInt16 (Codec.times32768 (Fin q))) samples).
  assert (Hr : Forall (fun v => (-32768 <= v < 32768)%Z) ints).
  { subst ints. apply Forall_map. eapply Forall_impl; [|exact H].
    intros q Hq. apply (quantise_inside Hq). }
  rewrite (@decodeAudioData_mono _ 24000 ints (int16_elements_bytes Hr)).
  2: { subst ints. destruct samples; [congruence|discriminate]. }
  2: reflexivity.
  eexists. eexists. split; [reflexivity|]. split; [reflexivity|].
  subst ints. clear Hne Hr.
  induction H as [|q l Hq _ IH]; cbn [map]; constructor; [|exact IH].
  cbn [within_one_step]. apply (quantise_inside Hq).
Qed.

(** C5 (code defect).  A single full-scale sample, 1.0, which is inside
    [[-1, 1]]: the encoder stores 32768 into a 16-bit element, where it
    wraps to -32768, and the round trip returns -1.0.  The error is 2,
    not 1/32768 or less. *)
Theorem full_scale_sample_wraps :
  (-1 <= 1 /\ 1 <= 1) /\
  Codec.ToInt16 (Codec.times32768 (Fin 1)) = (-32768)%Z /\
  Codec.roundtrip [Fin 1] 24000
  = Ok (Codec.mkBuffer 1 1 24000 [[Fin (-32768 # 32768)]]) /\
  Qabs ((-32768 # 32768) - 1) == 2 /\
  ~ round_trip_claim [1].
Proof.
  split; [split; discriminate|]. split; [reflexivity|].
  split; [reflexivity|]. split; [reflexivity|].
  intros (b & out & Hb & Hc & Hf).
  vm_compute in Hb. injection Hb as <-. cbn in Hc. injection Hc as <-.
  inversion Hf as [|? ? ? ? Hw _]; subst. cbn in Hw.
  vm_compute in Hw. apply Hw. reflexivity.
Qed.

(** ** Worked examples *)

Example btoa_Man : Codec.btoa "Man" = "TWFu"%string.
Proof. reflexivity. Qed.

Example btoa_Ma : Codec.btoa "Ma" = "TWE="%string.
Proof. reflexivity. Qed.

Example atob_padded : Codec.atob "TWE=" = Ok "Ma"%string.
Proof. reflexivity. Qed.

Example atob_misplaced_padding :
  Codec.atob "TW=E" = Throw InvalidCharacterError.
Proof. reflexivity. Qed.

Example createBlob_half :
  Codec.createBlob [Fin (1 # 2); Fin (- (1 # 2))]
  = Codec.mkBlob "AEAAwA==" "audio/pcm;rate=16000".
Proof. reflexivity. Qed.

Example decode_silence :
  Codec.decode "AAAAAAAA" = Ok [0; 0; 0; 0; 0; 0]%Z.
Proof. reflexivity. Qed.

(** A trailing partial frame is dropped: three samples, two channels. *)
Example decodeAudioData_partial_frame :
  Codec.decodeAudioData [1; 0; 2; 0; 3; 0]%Z 24000 2
  = Ok (Codec.mkBuffer 2 1 24000 [[Fin (1 # 32768)]; [Fin (2 # 32768)]]).
Proof. reflexivity. Qed.

(** A payload of white space decodes to no byte at all, and an empty
    buffer is refused. *)
Example decoded_blank : decoded " " = Throw NotSupportedError.
Proof. reflexivity. Qed.

(** An interruption stops both scheduled buffers and the next one starts
    at the clock reading of its arrival. *)
Example barge_in :
  trace_of (run [Message 0 (audio_fragment "AAAAAAAA");
                 Message 0 (audio_fragment "AAAAAAAA");
                 Message 1 interruption;
                 Message 7 (audio_fragment "AAAAAAAA")] established)
  = [onAIStartSpeaking; sourceStart 0 0 silence3;
     onAIStartSpeaking; sourceStart 1 (3 # 24000) silence3;
     sourceStop 0; sourceStop 1; onAIStopSpeaking;
     onAIStartSpeaking; sourceStart 2 7 silence3].
Proof. reflexivity. Qed.

(** Audio captured before the connection is established is sent once it
    is. *)
Example early_audio_is_sent_after_connect :
  trace_of (startLiveSpeakingSession friendly
              [Open; AudioProcess [Fin (1 # 2)]] initial)
  = [sendRealtimeInput (Codec.createBlob [Fin (1 # 2)])].
Proof. reflexivity. Qed.

(** The transcript of a turn is still there when the next turn begins. *)
Example second_turn_inherits_the_first :
  trace_of (run [Message 0 (input_fragment "Hi");
                 Message 0 turn_complete;
                 Message 0 (input_fragment "Bye")] established)
  = [onTranscriptionUpdate "Hi" "";
     unhandledRejection (ReferenceError "fullInputTranscript");
     onTranscriptionUpdate "HiBye" ""].
Proof. reflexivity. Qed.


(** * Further properties of the code *)

(** ** Codec: what crosses the wire *)

Lemma wrap16_range z : (-32768 <= Codec.wrap16 z < 32768)%Z.
Proof.
  unfold Codec.wrap16. destruct (Z.leb_spec 32768 (z mod 65536)); lia.
Qed.

Lemma ToInt16_range x : (-32768 <= Codec.ToInt16 x < 32768)%Z.
Proof. destruct x; cbn [Codec.ToInt16]; [apply wrap16_range|lia|lia]. Qed.

(** Whatever the samples are, finite or not, in range or not, decoding
    the data of the blob [createBlob] makes of them and viewing the bytes
    as 16-bit integers gives back the integers the encoder stored: the
    text encoding loses nothing and is never refused. *)
Theorem blob_carries_the_stored_integers (samples : list number) :
  rbind (Codec.decode (Codec.data (Codec.createBlob samples)))
        Codec.int16_elements
  = Ok (map (fun x => Codec.ToInt16 (Codec.times32768 x)) samples) /\
  Codec.mimeType (Codec.createBlob samples) = "audio/pcm;rate=16000"%string.
Proof.
  split; [|reflexivity].
  unfold Codec.createBlob. cbn [Codec.data].
  rewrite decode_btoa by apply int16_bytes_range. cbn [rbind].
  apply int16_elements_bytes. apply Forall_map, Forall_forall.
  intros x _. apply ToInt16_range.
Qed.

Lemma round_trip_inside_range_witness :
  round_trip_claim [1 # 2; -1; - (1 # 3)].
Proof.
  apply (@round_trip_inside_range [1 # 2; -1; - (1 # 3)]).
  - discriminate.
  - repeat constructor; discriminate.
Defined.

Lemma pack_padded_length l :
  (List.length (Codec.pack l) + (3 - List.length l mod 3) mod 3
   = 4 * ((List.length l + 2) / 3))%nat.
Proof.
  induction l as [| a | a b | a b c l IH] using triples_ind;
    cbn [Codec.pack List.length]; try reflexivity.
  lia.
Qed.

Lemma int16_bytes_length l :
  List.length (Codec.int16_bytes l) = (2 * List.length l)%nat.
Proof.
  induction l as [|v l IH]; [reflexivity|].
  unfold Codec.int16_bytes in *. cbn [flat_map app List.length]. lia.
Qed.

(** The data of a blob of [n] samples is [4 * ceil(2n / 3)] characters
    long, a multiple of four: 10924 characters for a chunk of 4096
    samples. *)
Theorem blob_data_length (samples : list number) :
  String.length (Codec.data (Codec.createBlob samples))
  = (4 * ((2 * List.length samples + 2) / 3))%nat.
Proof.
  unfold Codec.createBlob, Codec.btoa, Codec.padding. cbn [Codec.data].
  rewrite string_length_list, list_ascii_of_string_of_list_ascii.
  rewrite length_app, repeat_length, length_map.
  set (bytes := Codec.int16_bytes _).
  assert (Hc : List.length (Codec.codes (Codec.fromCharCodes bytes))
               = String.length (Codec.fromCharCodes bytes)).
  { unfold Codec.codes. rewrite length_map. symmetry. apply string_length_list. }
  rewrite <- Hc, pack_padded_length, Hc.
  unfold Codec.fromCharCodes.
  rewrite string_length_list, list_ascii_of_string_of_list_ascii, length_map.
  subst bytes. rewrite int16_bytes_length, length_map. reflexivity.
Qed.

(** *** What a successful [decodeAudioData] returns *)

Lemma int16_elements_range bytes : forall samples,
  Codec.int16_elements bytes = Ok samples ->
  Forall (fun v => (-32768 <= v < 32768)%Z) samples.
Proof.
  induction bytes as [| a | a b l IH] using pairs_ind; intros samples H.
  - injection H as <-. constructor.
  - discriminate H.
  - cbn [Codec.int16_elements] in H.
    destruct (Codec.int16_elements l) as [t|e]; [|discriminate H].
    injection H as <-. constructor; [apply wrap16_range|]. apply IH. reflexivity.
Qed.

Lemma decodeAudioData_ok bytes rate numChannels b :
  Codec.decodeAudioData bytes rate numChannels = Ok b ->
  exists samples,
    Codec.int16_elements bytes = Ok samples /\
    (1 <= numChannels)%nat /\
    (1 <= List.length samples / numChannels)%nat /\
    Codec.supported numChannels rate = true /\
    b = Codec.mkBuffer numChannels (List.length samples / numChannels) rate
          (map (fun p : nat * list number =>
                  Codec.fill_channel samples numChannels (fst p)
                    (Codec.loop_bound (List.length samples) numChannels)
                    (snd p))
               (combine (seq 0 numChannels)
                  (repeat (repeat (Fin 0) (List.length samples / numChannels))
                     numChannels))).
Proof.
  unfold Codec.decodeAudioData. intros H.
  destruct (Codec.int16_elements bytes) as [samples|e]; [|discriminate H].
  cbn [rbind] in H. unfold Codec.createBuffer in H.
  destruct (Nat.eqb_spec numChannels 0) as [|Hc]; [discriminate H|].
  destruct (Nat.eqb_spec (List.length samples / numChannels) 0) as [|Hf];
    [discriminate H|].
  cbn [orb] in H.
  destruct (Codec.supported numChannels rate); [|discriminate H].
  cbn [rbind Codec.numberOfChannels Codec.length Codec.sampleRate
       Codec.channels] in H.
  injection H as <-. exists samples. repeat split; lia.
Qed.

Lemma scaled_sample_normalised v :
  (-32768 <= v < 32768)%Z -> normalised (Fin (inject_Z v / 32768)).
Proof.
  intros H. exists (inject_Z v / 32768). split; [reflexivity|].
  unfold Qle, Qlt. cbn. lia.
Qed.

(** Every value of a decoded buffer is a finite number in [[-1, 1)]:
    there are exactly [numChannels] channels of [length] frames each, and
    no read past the end of the data ever lands in the buffer. *)
Theorem decoded_samples_are_normalised bytes rate numChannels b :
  Codec.decodeAudioData bytes rate numChannels = Ok b ->
  List.length (Codec.channels b) = numChannels /\
  Forall (fun channel =>
            List.length channel = Codec.length b /\
            Forall normalised channel)
         (Codec.channels b).
Proof.
  intros H. destruct (decodeAudioData_ok _ _ _ H) as (samples & E & Hc & Hf & _ & ->).
  cbn [Codec.channels Codec.length].
  set (n := List.length samples) in *.
  pose proof (int16_elements_range _ E) as Hr.
  split.
  - rewrite length_map, length_combine, length_seq, repeat_length. lia.
  - apply Forall_map, Forall_forall. intros [ch init] Hin. cbn [fst snd].
    pose proof (in_combine_l _ _ _ _ Hin) as Hch. apply in_seq in Hch.
    pose proof (in_combine_r _ _ _ _ Hin) as Hinit.
    apply repeat_spec in Hinit. subst init.
    unfold Codec.fill_channel.
    destruct (fill_loop
                (fun i => Codec.int16_get_scaled samples (i * numChannels + ch))
                (Codec.loop_bound n numChannels)
                (repeat (Fin 0) (n / numChannels))) as [L F].
    cbv zeta in L, F. rewrite repeat_length in L, F.
    split; [exact L|].
    apply Forall_forall. intros x Hx.
    apply In_nth_error in Hx. destruct Hx as [i Hi].
    assert (Hlt : (i < n / numChannels)%nat).
    { rewrite <- L. apply nth_error_Some. rewrite Hi. discriminate. }
    rewrite (F i Hlt) in Hi.
    replace (i <? Codec.loop_bound n numChannels)%nat with true in Hi
      by (symmetry; apply Nat.ltb_lt; unfold Codec.loop_bound; nia).
    injection Hi as <-. unfold Codec.int16_get_scaled.
    destruct (nth_error samples (i * numChannels + ch)) as [v|] eqn:Ev.
    + apply scaled_sample_normalised.
      apply nth_error_In in Ev. rewrite Forall_forall in Hr. apply Hr, Ev.
    + apply nth_error_None in Ev. fold n in Ev. nia.
Qed.

Lemma decoded_samples_are_normalised_witness :
  Forall (fun channel => List.length channel = 1%nat /\ Forall normalised channel)
    [[Fin (1 # 32768)]; [Fin (2 # 32768)]].
Proof.
  apply (@decoded_samples_are_normalised [1; 0; 2; 0; 3; 0]%Z 24000 2
           (Codec.mkBuffer 2 1 24000 [[Fin (1 # 32768)]; [Fin (2 # 32768)]])).
  reflexivity.
Defined.

(** A payload the session accepts always decodes to a mono buffer at
    24 kHz that lasts for a positive time, one 24000th of a second per
    two bytes. *)
Theorem playable_buffer_has_positive_duration base64 buffer :
  playable base64 buffer ->
  exists bytes,
    Codec.decode base64 = Ok bytes /\
    Codec.numberOfChannels buffer = 1%nat /\
    Codec.sampleRate buffer = 24000 /\
    Codec.length buffer = (List.length bytes / 2)%nat /\
    Codec.duration buffer == inject_Z (Z.of_nat (List.length bytes / 2)) / 24000 /\
    0 < Codec.duration buffer.
Proof.
  intros [_ H]. unfold decoded in H.
  destruct (Codec.decode base64) as [bytes|e]; [|discriminate H].
  cbn [rbind] in H. exists bytes. split; [reflexivity|].
  destruct (decodeAudioData_ok _ _ _ H) as (samples & E & _ & Hf & _ & ->).
  cbn [Codec.numberOfChannels Codec.sampleRate Codec.length].
  rewrite Nat.div_1_r in *.
  assert (Hl : List.length samples = (List.length bytes / 2)%nat).
  { destruct (Nat.even (List.length bytes)) eqn:Hev.
    - destruct (int16_elements_even bytes Hev) as (s' & E' & L & _).
      rewrite E in E'. injection E' as <-. exact L.
    - rewrite int16_elements_odd in E; [discriminate E|].
      rewrite <- Nat.negb_even, Hev. reflexivity. }
  repeat split; try assumption.
  - unfold Codec.duration. cbn [Codec.length Codec.sampleRate].
    rewrite Hl. reflexivity.
  - unfold Codec.duration. cbn [Codec.length Codec.sampleRate].
    unfold Qlt, Qdiv, Qmult, Qinv. cbn. lia.
Qed.

Lemma playable_buffer_has_positive_duration_witness :
  0 < Codec.duration silence3.
Proof.
  destruct (@playable_buffer_has_positive_duration "AAAAAAAA" silence3
              silence3_playable) as (bytes & _ & _ & _ & _ & _ & H).
  exact H.
Defined.

(** ** Session: what a message can do to the schedule *)

Lemma starts_map_sourceStop l : starts (map sourceStop l) = [].
Proof. induction l as [|i l IH]; [reflexivity|exact IH]. Qed.

Ltac schedule_read :=
  repeat first [ rewrite starts_app | rewrite starts_map_sourceStop
               | progress cbn [starts app] ].

(** A message schedules at most one buffer; it either leaves the
    in-flight set alone, adds the fresh source to it, or empties it. *)
Lemma onmessage_shape s now m :
  (starts (trace_of (onmessage now m s)) = [] /\
   nextSource (state_of (onmessage now m s)) = nextSource s /\
   (sources (state_of (onmessage now m s)) = sources s \/
    sources (state_of (onmessage now m s)) = []))
  \/
  (exists buffer,
     starts (trace_of (onmessage now m s))
     = [(Qmax (nextStartTime s) now, Codec.duration buffer)] /\
     nextSource (state_of (onmessage now m s)) = S (nextSource s) /\
     (sources (state_of (onmessage now m s)) = sources s ++ [nextSource s] \/
      sources (state_of (onmessage now m s)) = [])).
Proof.
  destruct s as [nst ictx octx sp mss srcs str cin cout pr w ns].
  destruct m as [[[it mt ot tc ir]|]]; [|left; repeat split; left; reflexivity].
  unfold onmessage.
  destruct (audioData (mkMessage (Some (mkServerContent it mt ot tc ir))))
    as [[[|c b]|]|e] eqn:Ha.
  4: { left. destruct it; cbn; repeat split; left; reflexivity. }
  1, 3: left; destruct it as [i|], ot as [o|], tc, ir;
    cbn -[stop_all_sources]; unfold bind;
    rewrite ?stop_all_sources_spec; cbn; schedule_read;
    (split; [reflexivity|split; [reflexivity|]]);
    first [left; reflexivity | right; reflexivity].
  unfold play_fragment.
  destruct it as [i|], ot as [o|], tc, ir;
    cbn -[stop_all_sources Codec.decode Codec.decodeAudioData Qmax];
    unfold bind, emit, modify, get, lift, ret, throw;
    cbn -[stop_all_sources Codec.decode Codec.decodeAudioData Qmax];
    (destruct (Codec.decode (String c b)) as [bytes|e1];
     [destruct (Codec.decodeAudioData bytes 24000 1) as [buffer|e2]|]);
    cbn -[stop_all_sources Qmax];
    rewrite ?stop_all_sources_spec; cbn -[Qmax]; schedule_read;
    first
      [ left; (split; [reflexivity|split; [reflexivity|]]);
        first [left; reflexivity | right; reflexivity]
      | right; eexists; (split; [reflexivity|split; [reflexivity|]]);
        first [left; reflexivity | right; reflexivity] ].
Qed.

(** No message ever schedules a buffer in the past: whatever the message
    and the state, every buffer it schedules starts no earlier than the
    clock reading at the arrival of the message, and no earlier than the
    playback cursor. *)
Theorem nothing_is_scheduled_in_the_past s now m :
  Forall (fun p => now <= fst p /\ nextStartTime s <= fst p)
         (starts (trace_of (onmessage now m s))).
Proof.
  destruct (onmessage_shape s now m) as [(-> & _)|(buffer & -> & _)].
  - constructor.
  - constructor; [|constructor]. cbn [fst].
    split; [apply Q.le_max_r|apply Q.le_max_l].
Qed.

(** ** Session: the end of playback *)

Lemma state_of_deliver i s : state_of (deliver i s) = state_of (handler i s).
Proof.
  unfold deliver, try_catch.
  destruct (handler i s) as [[[[]|e] s1] t1]; reflexivity.
Qed.

Lemma run_app l1 l2 s :
  run (l1 ++ l2) s =
  (result_of (run l2 (state_of (run l1 s))),
   state_of (run l2 (state_of (run l1 s))),
   trace_of (run l1 s) ++ trace_of (run l2 (state_of (run l1 s)))).
Proof.
  revert s. induction l1 as [|i l1 IH]; intros s.
  - cbn [app run]. apply outcome_eta.
  - cbn [app]. rewrite !run_cons, IH. cbn [state_of trace_of result_of fst snd].
    rewrite app_assoc. reflexivity.
Qed.

Lemma burst_outcome frags : forall buffers s,
  Forall2 playable (map snd frags) buffers ->
  sources (state_of (run (burst frags) s))
  = sources s ++ seq (nextSource s) (List.length frags) /\
  nextSource (state_of (run (burst frags) s))
  = (nextSource s + List.length frags)%nat /\
  count is_onAIStopSpeaking (trace_of (run (burst frags) s)) = 0%nat.
Proof.
  induction frags as [|[now b] frags IH]; intros buffers s H.
  - cbn. rewrite app_nil_r, Nat.add_0_r. repeat split.
  - cbn [map snd fst] in H. inversion H as [|? buffer ? rest Hp Hr]; subst.
    cbn [burst map fst snd]. fold (burst frags). rewrite run_cons.
    rewrite (deliver_audio_scheduled s now Hp).
    cbn [trace_of state_of fst snd].
    destruct (IH rest (enqueued now buffer s) Hr) as (Hs & Hn & Hc).
    fold (trace_of (run (burst frags) (enqueued now buffer s))).
    fold (state_of (run (burst frags) (enqueued now buffer s))).
    rewrite Hs, Hn, count_app, Hc. cbn [List.length seq].
    repeat split.
    + cbn. rewrite <- app_assoc. reflexivity.
    + cbn. lia.
Qed.

Lemma remove_head (a : nat) l : ~ In a l -> remove Nat.eq_dec a (a :: l) = l.
Proof.
  intros H. cbn. destruct (Nat.eq_dec a a) as [_|Hn]; [|congruence].
  apply notin_remove, H.
Qed.

Lemma deliver_ended source s :
  deliver (Ended source) s =
  (Ok tt, set_sources (remove Nat.eq_dec source (sources s)) s,
   if (List.length (remove Nat.eq_dec source (sources s)) =? 0)%nat
   then [onAIStopSpeaking] else []).
Proof.
  unfold deliver, try_catch, handler, onended, bind, modify, get, when.
  cbn. destruct (List.length (remove Nat.eq_dec source (sources s)) =? 0)%nat;
    reflexivity.
Qed.

Lemma ended_in_order l : forall s,
  sources s = l -> NoDup l -> l <> [] ->
  trace_of (run (map Ended l) s) = [onAIStopSpeaking] /\
  sources (state_of (run (map Ended l) s)) = [].
Proof.
  induction l as [|a l IH]; intros s Hs Hd Hne; [congruence|].
  inversion Hd as [|? ? Hna Hd']; subst.
  cbn [map]. rewrite run_cons, deliver_ended. cbn [trace_of state_of fst snd].
  rewrite Hs, (@remove_head a l Hna).
  destruct l as [|b l].
  - cbn. split; reflexivity.
  - cbn [List.length Nat.eqb app].
    apply IH; [reflexivity|exact Hd'|discriminate].
Qed.

(** When the buffers of a burst finish playing one after the other, with
    nothing in flight before the burst, the caller is told once that the
    coach stopped speaking: at the end of the last buffer, when the
    in-flight set empties. *)
Theorem playback_idle_is_signalled_once (frags : list (Q * string))
    (buffers : list Codec.AudioBuffer) (s : State) :
  sources s = [] ->
  frags <> [] ->
  Forall2 playable (map snd frags) buffers ->
  let ended := map Ended (seq (nextSource s) (List.length frags)) in
  let out := run (burst frags ++ ended) s in
  trace_of out = trace_of (run (burst frags) s) ++ [onAIStopSpeaking] /\
  count is_onAIStopSpeaking (trace_of out) = 1%nat /\
  sources (state_of out) = [].
Proof.
  intros Hs Hne H. cbv zeta.
  destruct (burst_outcome frags s H) as (Hsrc & _ & Hc).
  rewrite Hs in Hsrc. cbn [app] in Hsrc.
  rewrite run_app. cbn [trace_of state_of fst snd].
  destruct (@ended_in_order (seq (nextSource s) (List.length frags))
              (state_of (run (burst frags) s)) Hsrc) as [Ht Hf].
  - apply seq_NoDup.
  - destruct frags; [congruence|discriminate].
  - fold (trace_of (run (map Ended (seq (nextSource s) (List.length frags)))
                      (state_of (run (burst frags) s)))).
    fold (state_of (run (map Ended (seq (nextSource s) (List.length frags)))
                      (state_of (run (burst frags) s)))).
    rewrite Ht, Hf, count_app, Hc. repeat split.
Qed.

Lemma playback_idle_is_signalled_once_witness :
  trace_of (run (burst [(0, "AAAAAAAA"%string); (0, "AAAAAAAA"%string)]
                 ++ [Ended 0; Ended 1]) established)
  = trace_of (run (burst [(0, "AAAAAAAA"%string); (0, "AAAAAAAA"%string)])
                established) ++ [onAIStopSpeaking].
Proof.
  apply (@playback_idle_is_signalled_once
           [(0, "AAAAAAAA"%string); (0, "AAAAAAAA"%string)]
           [silence3; silence3] established).
  - reflexivity.
  - discriminate.
  - repeat constructor; discriminate.
Defined.

Lemma ended_on_empty_set l : forall s,
  sources s = [] ->
  run (map Ended l) s = (Ok tt, s, repeat onAIStopSpeaking (List.length l)).
Proof.
  induction l as [|a l IH]; intros s Hs; [reflexivity|].
  cbn [map]. rewrite run_cons, deliver_ended. rewrite Hs.
  cbn [remove List.length Nat.eqb trace_of state_of fst snd].
  assert (E : set_sources [] s = s).
  { destruct s. cbn in Hs. subst. reflexivity. }
  rewrite E, (IH s Hs). reflexivity.
Qed.

(** The [ended] events of sources that an interruption has already
    flushed are not told apart from natural completion: after the
    interruption has signalled that the coach stopped, each such event
    that arrives before new audio signals it once more. *)
Theorem stale_ended_events_signal_again (s : State) (now : Q)
    (ended : list nat) :
  let out := run (Message now interruption :: map Ended ended) s in
  count is_onAIStopSpeaking (trace_of out) = (1 + List.length ended)%nat /\
  stopped (trace_of out) = sources s /\
  sources (state_of out) = [].
Proof.
  cbv zeta. rewrite run_cons.
  assert (E : deliver (Message now interruption) s =
              (Ok tt, set_nextStartTime 0 (set_sources [] s),
               map sourceStop (sources s) ++ [onAIStopSpeaking])).
  { rewrite deliver_message. unfold try_catch, onmessage.
    cbn -[stop_all_sources]. unfold bind. rewrite stop_all_sources_spec.
    reflexivity. }
  rewrite E. cbn [trace_of state_of fst snd].
  rewrite ended_on_empty_set by reflexivity.
  cbn [trace_of state_of fst snd].
  rewrite !count_app, count_map_sourceStop by reflexivity.
  rewrite !stopped_app, stopped_map_sourceStop.
  assert (Hc : forall n,
            count is_onAIStopSpeaking (repeat onAIStopSpeaking n) = n).
  { induction n as [|n IH]; [reflexivity|]. unfold count in *. cbn.
    rewrite IH. reflexivity. }
  assert (Hst : forall n, stopped (repeat onAIStopSpeaking n) = []).
  { induction n as [|n IH]; [reflexivity|exact IH]. }
  rewrite Hc, Hst. cbn [stopped]. rewrite !app_nil_r.
  repeat split.
Qed.

(** ** Session: streaming the microphone *)

Lemma deliver_audio_connected chunk s :
  scriptProcessor s = Some true -> sessionPromise s = Fulfilled ->
  deliver (AudioProcess chunk) s
  = (Ok tt, s, [sendRealtimeInput (Codec.createBlob chunk)]).
Proof.
  intros Hp Hc. destruct s. cbn in Hp, Hc. subst. reflexivity.
Qed.

Lemma deliver_audio_pending chunk s :
  scriptProcessor s = Some true -> sessionPromise s = Pending ->
  deliver (AudioProcess chunk) s
  = (Ok tt, set_waiting (waiting s ++ [Codec.createBlob chunk]) s, []).
Proof.
  intros Hp Hc. destruct s. cbn in Hp, Hc. subst. reflexivity.
Qed.

Lemma deliver_audio_ignored chunk s :
  scriptProcessor s <> Some true ->
  deliver (AudioProcess chunk) s = (Ok tt, s, []).
Proof.
  intros Hp. destruct s as [nst ictx octx [[|]|] mss srcs str cin cout pr w ns];
    cbn in Hp; [congruence| |]; reflexivity.
Qed.

Lemma audio_while_pending chunks : forall s,
  scriptProcessor s = Some true -> sessionPromise s = Pending ->
  run (map AudioProcess chunks) s
  = (Ok tt, set_waiting (waiting s ++ map Codec.createBlob chunks) s, []).
Proof.
  induction chunks as [|c chunks IH]; intros s Hp Hc.
  - cbn. rewrite app_nil_r. destruct s. reflexivity.
  - cbn [map]. rewrite run_cons, (deliver_audio_pending c s Hp Hc).
    cbn [trace_of state_of fst snd]. rewrite IH by assumption.
    cbn [trace_of state_of result_of fst snd waiting set_waiting].
    rewrite <- app_assoc. reflexivity.
Qed.

Lemma flush_waiting l : forall s,
  fold_right (fun b k => emit (sendRealtimeInput b) ;; k) (ret tt) l s
  = (Ok tt, s, map sendRealtimeInput l).
Proof.
  induction l as [|b l IH]; intros s; [reflexivity|].
  cbn [fold_right map]. unfold bind, emit. rewrite IH. reflexivity.
Qed.

(** Once the connection is established, every captured chunk is sent
    exactly once and in capture order, and capturing changes nothing else
    in the session. *)
Theorem chunks_are_sent_in_capture_order (chunks : list (list number)) :
  forall s,
  scriptProcessor s = Some true -> sessionPromise s = Fulfilled ->
  run (map AudioProcess chunks) s = (Ok tt, s, sends chunks).
Proof.
  induction chunks as [|c chunks IH]; intros s Hp Hc; [reflexivity|].
  cbn [map sends]. rewrite run_cons, (deliver_audio_connected c s Hp Hc).
  cbn [trace_of state_of fst snd]. rewrite (IH s Hp Hc). reflexivity.
Qed.

Lemma chunks_are_sent_in_capture_order_witness :
  trace_of (run (map AudioProcess [[Fin (1 # 2)]; [Fin 0; Fin (-1)]])
              established)
  = sends [[Fin (1 # 2)]; [Fin 0; Fin (-1)]].
Proof.
  rewrite (@chunks_are_sent_in_capture_order
             [[Fin (1 # 2)]; [Fin 0; Fin (-1)]] established eq_refl eq_refl).
  reflexivity.
Defined.

Lemma bind_pure {A B} (m : M A) (k : A -> M B) s a s1 :
  m s = (Ok a, s1, []) -> bind m k s = k a s1.
Proof.
  intros E. unfold bind. rewrite E. destruct (k a s1) as [[r s2] t2].
  reflexivity.
Qed.

Lemma bind_lift_ok {A B} (a : A) (k : A -> M B) s :
  bind (lift (Ok a)) k s = k a s.
Proof. apply bind_pure. reflexivity. Qed.

Lemma bind_modify {B} f (k : unit -> M B) s :
  bind (modify f) k s = k tt (f s).
Proof. apply bind_pure. reflexivity. Qed.

Lemma bind_get {B} (k : State -> M B) s : bind get k s = k s s.
Proof. apply bind_pure. reflexivity. Qed.

(** Chunks captured between the [open] event and the resolution of the
    connection are held back: when the connection is established they
    are all sent, in capture order, before the handle is returned; when
    it fails none of them is ever sent. *)
Theorem early_chunks_wait_for_the_connection (h : Host)
    (chunks : list (list number)) :
  getUserMedia h = Ok tt ->
  newInputContext h = Ok tt ->
  newOutputContext h = Ok tt ->
  let out :=
    startLiveSpeakingSession h (Open :: map AudioProcess chunks) initial in
  match connect h with
  | Ok _ =>
      result_of out = Ok tt /\
      trace_of out = sends chunks /\
      waiting (state_of out) = []
  | Throw e =>
      result_of out = Throw e /\
      count is_sendRealtimeInput (trace_of out) = 0%nat
  end.
Proof.
  destruct h as [g i o c]. cbn [getUserMedia newInputContext newOutputContext
                                connect].
  intros -> -> ->.
  set (s1 := set_outputAudioContext (Some Running)
               (set_inputAudioContext (Some Running)
                  (set_stream (Some TrackLive) initial))).
  set (s2 := set_waiting (map Codec.createBlob chunks)
               (set_scriptProcessor (Some true)
                  (set_mediaStreamSource (Some true) s1))).
  assert (E : run (Open :: map AudioProcess chunks) s1 = (Ok tt, s2, [])).
  { rewrite run_cons.
    change (deliver Open s1)
      with (Ok tt, set_scriptProcessor (Some true)
                     (set_mediaStreamSource (Some true) s1),
            @nil Event).
    cbn [trace_of state_of fst snd].
    rewrite audio_while_pending by reflexivity. reflexivity. }
  assert (Hs : setup (mkHost (Ok tt) (Ok tt) (Ok tt) c)
                 (Open :: map AudioProcess chunks) initial
               = match c with
                 | Ok _ => (Ok tt,
                            set_waiting [] (set_sessionPromise Fulfilled s2),
                            sends chunks)
                 | Throw e => (Throw e, set_sessionPromise Rejected s2, [])
                 end).
  { unfold setup. cbn [getUserMedia newInputContext newOutputContext connect].
    rewrite bind_lift_ok, bind_modify, bind_lift_ok, bind_modify,
      bind_lift_ok, bind_modify.
    fold s1. rewrite (@bind_pure _ _ _ _ _ _ _ E).
    destruct c as [[]|e].
    - rewrite (@bind_pure _ _ _ _ s2 tt s2 eq_refl).
      rewrite bind_modify, bind_get, bind_modify, flush_waiting.
      change (waiting (set_sessionPromise Fulfilled s2))
        with (map Codec.createBlob chunks).
      unfold sends. rewrite map_map. reflexivity.
    - reflexivity. }
  cbv zeta. unfold startLiveSpeakingSession, try_catch. rewrite Hs.
  destruct c as [[]|e]; repeat split.
Qed.

Lemma early_chunks_wait_for_the_connection_witness :
  trace_of (startLiveSpeakingSession friendly
              (Open :: map AudioProcess [[Fin (1 # 2)]; [Fin 0]]) initial)
  = sends [[Fin (1 # 2)]; [Fin 0]].
Proof.
  apply (@early_chunks_wait_for_the_connection friendly
           [[Fin (1 # 2)]; [Fin 0]] eq_refl eq_refl eq_refl).
Defined.

(** ** [close], and who calls it *)

Lemma close_outcome s :
  result_of (close s) = Ok tt /\
  state_of (close s)
  = mkState (nextStartTime s)
      (option_map (fun _ => Closed) (inputAudioContext s))
      (option_map (fun _ => Closed) (outputAudioContext s))
      (option_map (fun _ => false) (scriptProcessor s))
      (option_map (fun _ => false) (mediaStreamSource s))
      []
      (option_map (fun _ => TrackEnded) (stream s))
      (currentInputTranscription s) (currentOutputTranscription s)
      (sessionPromise s) (waiting s) (nextSource s) /\
  stopped (trace_of (close s)) = sources s /\
  count is_sessionClose (trace_of (close s)) = 1%nat.
Proof.
  destruct s as [nst ictx octx sp mss srcs str cin cout pr w ns].
  unfold close, close_context, bind, emit, get, modify, when_some, ret.
  destruct str as [tr|], ictx as [[|]|], octx as [[|]|], sp as [p|],
           mss as [q|];
    cbn -[stop_all_sources];
    rewrite !stop_all_sources_spec; cbn;
    rewrite ?stopped_map_sourceStop;
    unfold count; cbn;
    rewrite ?(count_map_sourceStop is_sessionClose srcs (fun _ => eq_refl));
    repeat split;
    exact (f_equal S (count_map_sourceStop is_sessionClose srcs
                        (fun _ => eq_refl))).
Qed.

Lemma close_leaves_nothing_held s : released (state_of (close s)).
Proof.
  destruct (close_outcome s) as (_ & -> & _).
  unfold released. cbn.
  destruct (stream s), (inputAudioContext s), (outputAudioContext s),
           (scriptProcessor s), (mediaStreamSource s);
    repeat split; discriminate.
Qed.

(** Whatever state the session is in, [close()] completes without an
    exception and lets go of everything the session holds: the track is
    stopped, both contexts are closed, the capture nodes are disconnected
    and the audio handler removed, every in-flight source is stopped,
    once and in order, and the set is empty.  The transcripts and the
    playback cursor are left as they were. *)
Theorem close_releases_everything (s : State) :
  result_of (close s) = Ok tt /\
  released (state_of (close s)) /\
  stopped (trace_of (close s)) = sources s /\
  currentInputTranscription (state_of (close s)) = currentInputTranscription s /\
  currentOutputTranscription (state_of (close s))
  = currentOutputTranscription s /\
  nextStartTime (state_of (close s)) = nextStartTime s.
Proof.
  destruct (close_outcome s) as (Hr & Hs & Ht & _).
  split; [exact Hr|]. split; [apply close_leaves_nothing_held|].
  rewrite Hs. repeat split. exact Ht.
Qed.

(** After [close()] no captured chunk is sent any more, and chunks that
    were still waiting for the connection stay unsent. *)
Theorem nothing_is_sent_after_close (s : State) (chunks : list (list number)) :
  run (map AudioProcess chunks) (state_of (close s))
  = (Ok tt, state_of (close s), []).
Proof.
  assert (H : scriptProcessor (state_of (close s)) <> Some true).
  { destruct (close_outcome s) as (_ & -> & _). cbn.
    destruct (scriptProcessor s); discriminate. }
  revert H. generalize (state_of (close s)). intros s' H.
  induction chunks as [|c chunks IH]; [reflexivity|].
  cbn [map]. rewrite run_cons, (@deliver_audio_ignored c s' H).
  cbn [trace_of state_of fst snd]. rewrite IH. reflexivity.
Qed.

(** A remote close is relayed to the caller and releases nothing: the
    session state is untouched.  The component forgets the handle on that
    notification, so nothing the user does afterwards reaches the
    session. *)
Theorem remote_close_only_notifies (c : Component) (s : State) :
  let after := act (Platform Close) (c, s) in
  snd after = [onClose] /\
  snd (fst after) = s /\
  liveSessionRef (fst (fst after)) = false /\
  forall l, Forall by_user l -> acts l (fst after) = (fst after, []).
Proof.
  cbv zeta. cbn. repeat split.
  intros l Hl. apply dropped_handle_is_out_of_reach; [reflexivity..|exact Hl].
Qed.

Lemma remote_close_only_notifies_witness :
  acts [StopSpeaking; Unmount] (fst (act (Platform Close) recording))
  = (fst (act (Platform Close) recording), []).
Proof.
  apply (@remote_close_only_notifies (fst recording) (snd recording)).
  repeat constructor.
Defined.

(** The Stop button closes the session exactly once: with the handle in
    hand it runs [close()], which releases everything, and drops the
    handle, so that no later action of the user closes it again. *)
Theorem stop_closes_exactly_once (c : Component) (s : State)
    (l : list Action) :
  liveSessionRef c = true ->
  Forall by_user l ->
  let after := acts (StopSpeaking :: l) (c, s) in
  snd after = trace_of (close s) /\
  snd (fst after) = state_of (close s) /\
  released (snd (fst after)) /\
  count is_sessionClose (snd after) = 1%nat /\
  liveSessionRef (fst (fst after)) = false.
Proof.
  intros Hc Hl. cbv zeta. cbn [acts act]. rewrite Hc.
  rewrite dropped_handle_is_out_of_reach by (try reflexivity; exact Hl).
  cbn [fst snd]. rewrite app_nil_r.
  pose proof (close_leaves_nothing_held s) as Hrel.
  destruct (close_outcome s) as (_ & _ & _ & Hcount).
  split; [reflexivity|]. split; [reflexivity|]. split; [exact Hrel|].
  split; [exact Hcount|reflexivity].
Qed.

Lemma stop_closes_exactly_once_witness :
  count is_sessionClose (snd (acts [StopSpeaking; StopSpeaking; Unmount] recording))
  = 1%nat.
Proof.
  apply (@stop_closes_exactly_once (fst recording) (snd recording)
           [StopSpeaking; Unmount] eq_refl).
  repeat constructor.
Defined.

(** ** Messages the handler cannot finish *)

(** An audio payload that cannot be decoded (malformed base64, an odd
    number of bytes, no byte at all) is announced all the same: the
    caller is told that the coach started speaking, then the handler
    fails.  Nothing is scheduled, so no [ended] event will bring the stop
    signal, and the rest of the message is dropped: its output
    transcript is not recorded and its interruption mark is not acted
    on. *)
Theorem undecodable_audio_is_announced (s : State) (now : Q)
    (m : LiveServerMessage) (b : string) (e : Exn) :
  audioData m = Ok (Some b) ->
  b <> EmptyString ->
  decoded b = Throw e ->
  let out := deliver (Message now m) s in
  count is_onAIStartSpeaking (trace_of out) = 1%nat /\
  count is_onAIStopSpeaking (trace_of out) = 0%nat /\
  starts (trace_of out) = [] /\
  stopped (trace_of out) = [] /\
  In (unhandledRejection e) (trace_of out) /\
  sources (state_of out) = sources s /\
  currentOutputTranscription (state_of out) = currentOutputTranscription s.
Proof.
  intros Ha Hb Hd. cbv zeta.
  destruct b as [|c b]; [congruence|].
  unfold decoded in Hd.
  destruct s as [nst ictx octx sp mss srcs str cin cout pr w ns].
  destruct m as [[[it mt ot tc ir]|]]; [|discriminate Ha].
  rewrite deliver_message. unfold try_catch, onmessage. rewrite Ha.
  unfold play_fragment.
  destruct it as [i|];
    cbn -[stop_all_sources Codec.decode Codec.decodeAudioData Qmax];
    unfold bind, emit, modify, get, lift, ret, throw;
    cbn -[stop_all_sources Codec.decode Codec.decodeAudioData Qmax];
    (destruct (Codec.decode (String c b)) as [bytes|e1]; cbn [rbind] in Hd;
     [ rewrite Hd | injection Hd as -> ]);
    cbn; repeat split; auto.
Qed.

Lemma undecodable_audio_is_announced_witness :
  let m := mkMessage (Some (mkServerContent None
             (Some (mkContent (Some [mkPart (Some (mkInlineData (Some "AAAA"%string)))])))
             (Some (mkTranscription (Some "Hi"%string))) false true)) in
  let out := deliver (Message 0 m)
               (state_of (run (burst [(0, "AAAAAAAA"%string)]) established)) in
  count is_onAIStartSpeaking (trace_of out) = 1%nat /\
  stopped (trace_of out) = [] /\
  sources (state_of out) = [0%nat].
Proof.
  cbv zeta.
  destruct (@undecodable_audio_is_announced
              (state_of (run (burst [(0, "AAAAAAAA"%string)]) established)) 0
              (mkMessage (Some (mkServerContent None
                 (Some (mkContent (Some [mkPart (Some (mkInlineData (Some "AAAA"%string)))])))
                 (Some (mkTranscription (Some "Hi"%string))) false true)))
              "AAAA" RangeError eq_refl)
    as (H1 & _ & _ & H4 & _ & H6 & _).
  - discriminate.
  - reflexivity.
  - split; [exact H1|]. split; [exact H4|exact H6].
Defined.

(** ** Transcript accumulation *)

(** Transcript fragments are applied in arrival order, each to its own
    side: after any sequence of fragments each accumulator holds what it
    held before followed by the fragments of its side, and the caller has
    received one update per fragment, each carrying both running
    transcripts. *)
Theorem fragments_accumulate_in_order (l : list (Q * (bool * string))) :
  forall s,
  let out := run (map (fun x => Message (fst x) (fragment (snd x))) l) s in
  trace_of out
  = running_updates (currentInputTranscription s)
      (currentOutputTranscription s) (map snd l) /\
  currentInputTranscription (state_of out)
  = (currentInputTranscription s ++ side true (map snd l))%string /\
  currentOutputTranscription (state_of out)
  = (currentOutputTranscription s ++ side false (map snd l))%string /\
  sources (state_of out) = sources s /\
  nextStartTime (state_of out) = nextStartTime s.
Proof.
  induction l as [|[now [[|] f]] l IH]; intros s; cbv zeta.
  - cbn. rewrite !append_empty. repeat split.
  - cbn [map fst snd]. rewrite run_cons.
    change (deliver (Message now (fragment (true, f))) s)
      with (Ok tt,
            set_currentInputTranscription
              (currentInputTranscription s ++ f) s,
            [onTranscriptionUpdate (currentInputTranscription s ++ f)
               (currentOutputTranscription s)]).
    cbn [trace_of state_of fst snd].
    destruct (IH (set_currentInputTranscription
                    (currentInputTranscription s ++ f) s))
      as (Ht & Hi & Ho & Hs & Hn).
    cbv zeta in Ht, Hi, Ho, Hs, Hn.
    fold (trace_of (run (map (fun x => Message (fst x) (fragment (snd x))) l)
            (set_currentInputTranscription
               (currentInputTranscription s ++ f) s))).
    fold (state_of (run (map (fun x => Message (fst x) (fragment (snd x))) l)
            (set_currentInputTranscription
               (currentInputTranscription s ++ f) s))).
    rewrite Ht, Hi, Ho, Hs, Hn. cbn.
    rewrite append_associative. repeat split.
  - cbn [map fst snd]. rewrite run_cons.
    change (deliver (Message now (fragment (false, f))) s)
      with (Ok tt,
            set_currentOutputTranscription
              (currentOutputTranscription s ++ f) s,
            [onTranscriptionUpdate (currentInputTranscription s)
               (currentOutputTranscription s ++ f)]).
    cbn [trace_of state_of fst snd].
    destruct (IH (set_currentOutputTranscription
                    (currentOutputTranscription s ++ f) s))
      as (Ht & Hi & Ho & Hs & Hn).
    cbv zeta in Ht, Hi, Ho, Hs, Hn.
    fold (trace_of (run (map (fun x => Message (fst x) (fragment (snd x))) l)
            (set_currentOutputTranscription
               (currentOutputTranscription s ++ f) s))).
    fold (state_of (run (map (fun x => Message (fst x) (fragment (snd x))) l)
            (set_currentOutputTranscription
               (currentOutputTranscription s ++ f) s))).
    rewrite Ht, Hi, Ho, Hs, Hn. cbn.
    rewrite append_associative. repeat split.
Qed.

(** ** One-shot evaluation *)

Lemma or_else_nonempty o fallback :
  fallback <> EmptyString -> or_else o fallback <> EmptyString.
Proof. intros H. destruct o as [[|c s]|]; cbn; congruence. Qed.

Lemma prefix_append n : forall rest, String.prefix n (n ++ rest) = true.
Proof.
  induction n as [|c n IH]; intros rest; [destruct rest; reflexivity|].
  cbn. destruct (ascii_dec c c) as [_|H]; [apply IH|congruence].
Qed.

Lemma includes_prefix needle haystack :
  String.prefix needle haystack = true -> includes needle haystack = true.
Proof. destruct haystack; cbn [includes]; intros ->; reflexivity. Qed.

Lemma includes_inside needle : forall before rest,
  includes needle (before ++ needle ++ rest) = true.
Proof.
  induction before as [|c before IH]; intros rest.
  - cbn [append]. apply includes_prefix, prefix_append.
  - cbn [append includes]. rewrite IH. apply orb_true_r.
Qed.

Section Evaluating.
Variable J : Type.
Variable parse : string -> option (option J).
Variable generateContent : EvaluationType -> string -> Result (option string).
Variable undefined_read : string.

Let evaluate := getEvaluation parse generateContent undefined_read.

Lemma rethrow_reported e : reported (rethrow undefined_read e).
Proof.
  unfold rethrow, reported.
  destruct (truthy (message_of undefined_read e)
            && includes "400 BAD_REQUEST"
                 (js_string (message_of undefined_read e))).
  - eexists. split; [reflexivity|]. left. reflexivity.
  - eexists. split; [reflexivity|]. right. eexists. split; [|reflexivity].
    apply or_else_nonempty. discriminate.
Qed.

Lemma thrown_by_getEvaluation type inputText e :
  evaluate type inputText = Throw e -> reported e.
Proof.
  unfold evaluate, getEvaluation.
  destruct (request_and_parse parse generateContent type inputText);
    [discriminate|].
  intros H. injection H as <-. apply rethrow_reported.
Qed.

(** Whatever goes wrong in [getEvaluation] (the request is rejected,
    the response has no text, the text is not JSON), the caller gets an
    error with one of two messages: the fixed bad-request text, or
    ["Failed to get evaluation from AI: "] followed by a detail that is
    never empty. *)
Theorem getEvaluation_failures_are_reported type inputText e :
  evaluate type inputText = Throw e -> reported e.
Proof. apply thrown_by_getEvaluation. Qed.

(** A response whose text is not JSON, once trimmed, is reported through
    both [catch] blocks: the message of the inner one becomes the detail
    of the outer one. *)
Theorem malformed_response_is_wrapped_twice type inputText text :
  generateContent type inputText = Ok (Some text) ->
  parse (trim text) = None ->
  evaluate type inputText
  = Throw (HostError (Some
      "Failed to get evaluation from AI: Failed to parse AI response. The response format was unexpected."%string)).
Proof.
  intros Hg Hp. unfold evaluate, getEvaluation, request_and_parse.
  rewrite Hg. cbn [rbind]. rewrite Hp. reflexivity.
Qed.

(** A rejection whose message mentions [400 BAD_REQUEST] anywhere is
    reported with the fixed bad-request text; the original message is
    dropped. *)
Theorem bad_request_is_recognised type inputText before rest :
  generateContent type inputText
  = Throw (HostError (Some (before ++ "400 BAD_REQUEST" ++ rest)%string)) ->
  evaluate type inputText = Throw (HostError (Some bad_request)).
Proof.
  intros Hg. unfold evaluate, getEvaluation, request_and_parse.
  rewrite Hg. cbn [rbind]. unfold rethrow. cbn [message_of js_string].
  rewrite includes_inside.
  replace (truthy (Some (before ++ "400 BAD_REQUEST" ++ rest)%string))
    with true; [reflexivity|].
  destruct before; reflexivity.
Qed.

(** When a writing submission has run its course the loading flag is
    off, the speaking feedback is cleared, and a feedback and an error
    are never left together.  On success the state holds the value the
    response text parsed to and no error; on failure it holds no
    feedback and the error message of [getEvaluation], never the
    handler's own fallback text.  A response whose text parses to [null]
    counts as a success and leaves neither: no feedback, no error. *)
Theorem writing_submit_outcome inputText st :
  let st' :=
    handleWritingSubmit parse generateContent undefined_read inputText st in
  isLoading st' = false /\
  speakingFeedback st' = None /\
  activeMode st' = activeMode st /\
  ((exists feedback,
      evaluate writing inputText = Ok feedback /\
      writingFeedback st' = feedback /\ error st' = None)
   \/
   (exists m,
      evaluate writing inputText = Throw (HostError (Some m)) /\
      m <> EmptyString /\
      writingFeedback st' = None /\ error st' = Some m)) /\
  (forall text,
     generateContent writing inputText = Ok (Some text) ->
     parse (trim text) = Some None ->
     writingFeedback st' = None /\ error st' = None).
Proof.
  cbv zeta. split; [|split; [|split; [|split]]].
  - unfold handleWritingSubmit.
    destruct (getEvaluation parse generateContent undefined_read writing
                inputText); reflexivity.
  - unfold handleWritingSubmit.
    destruct (getEvaluation parse generateContent undefined_read writing
                inputText); reflexivity.
  - unfold handleWritingSubmit.
    destruct (getEvaluation parse generateContent undefined_read writing
                inputText); reflexivity.
  - unfold handleWritingSubmit. fold evaluate.
    destruct (evaluate writing inputText) as [feedback|e] eqn:E;
      cbn [writingFeedback error].
    + left. exists feedback. repeat split.
    + right. destruct (thrown_by_getEvaluation _ _ E) as (m & -> & Hm).
      exists m. split; [reflexivity|].
      assert (Hne : m <> EmptyString).
      { destruct Hm as [->|(d & Hd & ->)]; discriminate. }
      split; [exact Hne|]. split; [reflexivity|].
      cbn [message_of]. destruct m; [congruence|reflexivity].
  - intros text Hg Hp.
    unfold handleWritingSubmit, getEvaluation, request_and_parse.
    rewrite Hg. cbn [rbind]. rewrite Hp. split; reflexivity.
Qed.

End Evaluating.

Lemma writing_submit_outcome_witness :
  let st :=
    handleWritingSubmit toy_parse (fun _ _ => Ok (Some " null "%string)) ""
      "I go." (mkAppState writing (Some tt) None true (Some "old"%string)) in
  writingFeedback st = None /\ error st = None.
Proof.
  cbv zeta.
  destruct (@writing_submit_outcome unit toy_parse
              (fun _ _ => Ok (Some " null "%string)) "" "I go."
              (mkAppState writing (Some tt) None true (Some "old"%string)))
    as (_ & _ & _ & _ & H).
  apply (H " null "%string); reflexivity.
Defined.

Lemma malformed_response_is_wrapped_twice_witness :
  getEvaluation toy_parse toy_model "" speaking "hello"
  = Throw (HostError (Some
      "Failed to get evaluation from AI: Failed to parse AI response. The response format was unexpected."%string)).
Proof.
  apply (@malformed_response_is_wrapped_twice unit toy_parse toy_model ""
           speaking "hello" "Sure! Here is my feedback.");
    reflexivity.
Defined.

Lemma getEvaluation_failures_are_reported_witness :
  reported (HostError (Some
    "Failed to get evaluation from AI: Failed to parse AI response. The response format was unexpected."%string)).
Proof.
  apply (@getEvaluation_failures_are_reported unit toy_parse toy_model ""
           speaking "hello").
  reflexivity.
Defined.

Lemma bad_request_is_recognised_witness :
  getEvaluation toy_parse
    (fun _ _ => Throw (HostError (Some
       "got status: 400 BAD_REQUEST. {}"%string))) "" writing "hello"
  = Throw (HostError (Some bad_request)).
Proof.
  apply (@bad_request_is_recognised unit toy_parse
           (fun _ _ => Throw (HostError (Some
              "got status: 400 BAD_REQUEST. {}"%string))) ""
           writing "hello" "got status: " ". {}").
  reflexivity.
Defined.

(** *** The form *)

Lemma drop_whitespace_blank l :
  Forall (fun c => is_js_whitespace c = true) l -> drop_whitespace l = [].
Proof.
  induction 1 as [|c l Hc _ IH]; [reflexivity|]. cbn. rewrite Hc. exact IH.
Qed.

Lemma drop_whitespace_keeps l :
  Exists (fun c => is_js_whitespace c = false) l ->
  Exists (fun c => is_js_whitespace c = false) (drop_whitespace l).
Proof.
  induction l as [|c l IH]; intros H; [inversion H|].
  cbn. destruct (is_js_whitespace c) eqn:Hc.
  - apply IH. inversion H as [? ? Hx|? ? Ht]; subst; [congruence|exact Ht].
  - exact H.
Qed.

Lemma trim_blank s : blank s -> trim s = EmptyString.
Proof.
  intros H. unfold trim. rewrite (drop_whitespace_blank H). reflexivity.
Qed.

Lemma trim_not_blank s : ~ blank s -> trim s <> EmptyString.
Proof.
  intros H. unfold trim, blank in *.
  assert (He : Exists (fun c => is_js_whitespace c = false)
                 (list_ascii_of_string s)).
  { apply neg_Forall_Exists_neg in H.
    - eapply Exists_impl; [|exact H]. intros c Hc. cbn beta in Hc.
      destruct (is_js_whitespace c);
        [exfalso; apply Hc; reflexivity|reflexivity].
    - intros c. destruct (is_js_whitespace c); [left|right]; congruence. }
  apply drop_whitespace_keeps in He. apply Exists_rev in He.
  apply drop_whitespace_keeps in He. apply Exists_rev in He.
  destruct (rev (drop_whitespace (rev (drop_whitespace
              (list_ascii_of_string s))))) as [|c r];
    [inversion He|discriminate].
Qed.

(** The form sends nothing when the text is made of white space only; any
    other text is submitted as typed, untrimmed. *)
Theorem blank_text_is_not_submitted (J : Type)
    (parse : string -> option (option J))
    (generateContent : EvaluationType -> string -> Result (option string))
    (undefined_read : string) (inputText : string) (st : AppState J) :
  (blank inputText ->
   handleSubmit parse generateContent undefined_read inputText st = st) /\
  (~ blank inputText ->
   handleSubmit parse generateContent undefined_read inputText st
   = handleWritingSubmit parse generateContent undefined_read inputText st).
Proof.
  unfold handleSubmit. split; intros H.
  - rewrite (trim_blank H). reflexivity.
  - pose proof (trim_not_blank H) as Hn.
    destruct (trim inputText); [congruence|reflexivity].
Qed.

Lemma blank_text_is_not_submitted_witness :
  let st := mkAppState writing (@None unit) None false None in
  handleSubmit toy_parse toy_model "" "   " st = st /\
  handleSubmit toy_parse toy_model "" " I go. " st
  = handleWritingSubmit toy_parse toy_model "" " I go. " st.
Proof.
  cbv zeta.
  destruct (@blank_text_is_not_submitted unit toy_parse toy_model "" "   "
              (mkAppState writing None None false None)) as [H1 _].
  destruct (@blank_text_is_not_submitted unit toy_parse toy_model "" " I go. "
              (mkAppState writing None None false None)) as [_ H2].
  split.
  - apply H1. repeat constructor.
  - apply H2. intros H. inversion H as [|? ? _ H']; subst.
    inversion H' as [|? ? Hc _]; subst. discriminate Hc.
Defined.

(** ** Set-up and malformed messages *)



(** The optional chain that reads the audio payload guards [modelTurn]
    but not [parts]: a model turn that carries no [parts] makes the
    handler fail with a [TypeError].  The input transcript of the
    message has been applied by then; its output transcript, its
    interruption mark and its audio are lost. *)
Theorem model_turn_without_parts_fails (s : State) (now : Q)
    (m : LiveServerMessage) (sc : ServerContent) (c : Content) :
  serverContent m = Some sc ->
  modelTurn sc = Some c ->
  parts c = None ->
  let out := deliver (Message now m) s in
  In (unhandledRejection TypeError) (trace_of out) /\
  count is_onAIStartSpeaking (trace_of out) = 0%nat /\
  count is_onAIStopSpeaking (trace_of out) = 0%nat /\
  stopped (trace_of out) = [] /\
  sources (state_of out) = sources s /\
  currentOutputTranscription (state_of out) = currentOutputTranscription s /\
  currentInputTranscription (state_of out)
  = match inputTranscription sc with
    | Some t => (currentInputTranscription s ++ js_string (text t))%string
    | None => currentInputTranscription s
    end.
Proof.
  intros Hsc Hm Hp. cbv zeta.
  destruct m as [o]. cbn in Hsc. subst o.
  destruct sc as [it mt ot tc ir]. cbn in Hm. subst mt.
  destruct c as [p]. cbn in Hp. subst p.
  destruct s as [nst ictx octx sp mss srcs str cin cout pr w ns].
  destruct it as [i|]; cbn; repeat split; auto.
Qed.

Lemma model_turn_without_parts_fails_witness :
  let m := mkMessage (Some (mkServerContent
             (Some (mkTranscription (Some "Hi"%string)))
             (Some (mkContent None))
             (Some (mkTranscription (Some "Hello"%string))) false true)) in
  let out := deliver (Message 0 m) established in
  In (unhandledRejection TypeError) (trace_of out) /\
  currentOutputTranscription (state_of out) = EmptyString.
Proof.
  cbv zeta.
  destruct (@model_turn_without_parts_fails established 0
              (mkMessage (Some (mkServerContent
                 (Some (mkTranscription (Some "Hi"%string)))
                 (Some (mkContent None))
                 (Some (mkTranscription (Some "Hello"%string))) false true)))
              _ _ eq_refl eq_refl eq_refl)
    as (H1 & _ & _ & _ & _ & H6 & _).
  split; [exact H1|exact H6].
Defined.
